(** * Canonical protobuf-JSON encoders for the well-known types

    A shallow embedding of the Go package [jsonpb]: the name converters
    of [strs], the well-known-type marshalers ([marshalAny],
    [marshalDuration], [marshalTimestamp], [marshalFieldMask], ...) and
    the [JSONPb] marshaler of the gateway, with the properties the
    specification states about them.

    Go strings are byte sequences: they are [string] here, whose
    characters are the 8-bit [ascii].  Go's [int64] is [Z], with the
    wrap-around written where the source computes. *)

From Stdlib Require Import ZArith List Bool Ascii String Lia PrimFloat.
Import ListNotations.

Open Scope string_scope.
Open Scope Z_scope.

Set Warnings "-register-all".

(** ** Bytes *)

Abbreviation byte := ascii.

Definition byte_val (c : byte) : Z := Z.of_N (N_of_ascii c).

Definition byte_of_Z (z : Z) : byte := ascii_of_N (Z.to_N (z mod 256)).

(** [c -= k] and [c += k] on a Go [byte] wrap modulo 256. *)
Definition byte_sub (c : byte) (k : Z) : byte := byte_of_Z (byte_val c - k).
Definition byte_add (c : byte) (k : Z) : byte := byte_of_Z (byte_val c + k).

Definition byte_eqb (a b : byte) : bool := Ascii.eqb a b.

(** ** Package strs: identifier casing *)

Module strs.

Definition isASCIILower (c : byte) : bool :=
  (byte_val "a" <=? byte_val c) && (byte_val c <=? byte_val "z").

Definition isASCIIUpper (c : byte) : bool :=
  (byte_val "A" <=? byte_val c) && (byte_val c <=? byte_val "Z").

Definition isASCIIDigit (c : byte) : bool :=
  (byte_val "0" <=? byte_val c) && (byte_val c <=? byte_val "9").

(** The body of the loop of [JSONCamelCase]: [wasUnderscore] is the loop
    variable of the source, [s] the bytes still to read; the result is
    what the loop appends to [b]. *)
Fixpoint JSONCamelCase_loop (wasUnderscore : bool) (s : string) : string :=
  match s with
  | EmptyString => EmptyString
  | String c s' =>
      if negb (byte_eqb c "_") then
        let c' := if wasUnderscore && isASCIILower c
                  then byte_sub c (byte_val "a" - byte_val "A")
                  else c in
        String c' (JSONCamelCase_loop (byte_eqb c' "_") s')
      else
        JSONCamelCase_loop (byte_eqb c "_") s'
  end.

Definition JSONCamelCase (s : string) : string := JSONCamelCase_loop false s.

Fixpoint JSONSnakeCase (s : string) : string :=
  match s with
  | EmptyString => EmptyString
  | String c s' =>
      if isASCIIUpper c
      then String "_" (String (byte_add c (byte_val "a" - byte_val "A"))
                              (JSONSnakeCase s'))
      else String c (JSONSnakeCase s')
  end.

End strs.



(** ** The Go library functions the marshalers call *)

(** Package [strings]. *)
Module strings.

Definition HasSuffix (s suffix : string) : bool :=
  (String.length suffix <=? String.length s)%nat
  && String.eqb (substring (String.length s - String.length suffix)
                           (String.length suffix) s) suffix.

Definition TrimSuffix (s suffix : string) : string :=
  if HasSuffix s suffix
  then substring 0 (String.length s - String.length suffix) s
  else s.

Fixpoint Join (elems : list string) (sep : string) : string :=
  match elems with
  | [] => ""
  | [a] => a
  | a :: rest => a ++ sep ++ Join rest sep
  end.

(** [LastIndexByte s c]: the index of the last [c] in [s], [None] for
    Go's -1. *)
Fixpoint LastIndexByte (s : string) (c : byte) : option nat :=
  match s with
  | EmptyString => None
  | String d s' =>
      match LastIndexByte s' c with
      | Some i => Some (S i)
      | None => if byte_eqb d c then Some O else None
      end
  end.

End strings.

(** Package [fmt], for the two verbs of the duration format
    ["%s%d.%09d"], on [int64] arguments. *)
Module fmt.

Definition digit (d : Z) : byte := byte_of_Z (byte_val "0" + d).

(** The digits of [u], most significant first, in front of [acc]; an
    [int64] has at most 19 of them. *)
Fixpoint formatBits (fuel : nat) (u : Z) (acc : string) : string :=
  match fuel with
  | O => String (digit (u mod 10)) acc
  | S fuel' =>
      if 10 <=? u
      then formatBits fuel' (u / 10) (String (digit (u mod 10)) acc)
      else String (digit u) acc
  end.

Definition FormatUint (u : Z) : string := formatBits 19 u "".

Fixpoint zeros (n : nat) : string :=
  match n with
  | O => ""
  | S n' => String "0" (zeros n')
  end.

(** Left padding with ['0'] up to [width] bytes. *)
Definition padZeros (width : nat) (s : string) : string :=
  zeros (width - String.length s) ++ s.

(** [%d] *)
Definition Sprintf_d (z : Z) : string :=
  if z <? 0 then "-" ++ FormatUint (- z) else FormatUint z.

(** [%09d]: the sign counts in the width and comes before the zeros. *)
Definition Sprintf_09d (z : Z) : string :=
  if z <? 0 then "-" ++ padZeros 8 (FormatUint (- z))
  else padZeros 9 (FormatUint z).

End fmt.









(** Go's [int64] arithmetic wraps modulo 2^64. *)
Definition wrap64 (z : Z) : Z := (z + 2 ^ 63) mod 2 ^ 64 - 2 ^ 63.

(** Package [time], for [time.Unix(sec, nsec).UTC().Format(layout)] with
    the layout ["2006-01-02T15:04:05.000000000"]. *)
Module time.

(** An instant in UTC: seconds since the Unix epoch and the nanosecond
    within that second. *)
Record Time := mkTime { sec : Z; nsec : Z }.

Definition Unix (sec nsec : Z) : Time :=
  if (nsec <? 0) || (1000000000 <=? nsec) then
    let n := Z.quot nsec 1000000000 in
    let sec := wrap64 (sec + n) in
    let nsec := nsec - n * 1000000000 in
    if nsec <? 0
    then mkTime (wrap64 (sec - 1)) (nsec + 1000000000)
    else mkTime sec nsec
  else mkTime sec nsec.

Definition UTC (t : Time) : Time := t.

(** The day number of a date, counted from 1970-01-01: the conversion
    behind [time.Date(y, m, d, ...).Unix()]. *)
Definition days_from_civil (y m d : Z) : Z :=
  let y' := if m <=? 2 then y - 1 else y in
  let era := y' / 400 in
  let yoe := y' - era * 400 in
  let doy := (153 * (if 2 <? m then m - 3 else m + 9) + 2) / 5 + d - 1 in
  let doe := yoe * 365 + yoe / 4 - yoe / 100 + doy in
  era * 146097 + doe - 719468.

(** The proleptic Gregorian date of the day [days] after 1970-01-01, as
    [Time.Date] gives it in UTC: year, month (1..12), day of month. *)
Definition Date (days : Z) : Z * Z * Z :=
  let z := days + 719468 in
  let era := z / 146097 in
  let doe := z - era * 146097 in
  let yoe := (doe - doe / 1460 + doe / 36524 - doe / 146096) / 365 in
  let doy := doe - (365 * yoe + yoe / 4 - yoe / 100) in
  let mp := (5 * doy + 2) / 153 in
  let d := doy - (153 * mp + 2) / 5 + 1 in
  let m := if mp <? 10 then mp + 3 else mp - 9 in
  let y := yoe + era * 400 + (if m <=? 2 then 1 else 0) in
  (y, m, d).

(** [appendInt(b, x, width)]: the sign, then the digits padded with
    zeros to [width]. *)
Definition appendInt (x : Z) (width : nat) : string :=
  if x <? 0 then "-" ++ fmt.padZeros width (fmt.FormatUint (- x))
  else fmt.padZeros width (fmt.FormatUint x).

(** [t.Format("2006-01-02T15:04:05.000000000")] *)
Definition Format_2006_01_02T15_04_05_000000000 (t : Time) : string :=
  let '(year, month, day) := Date (sec t / 86400) in
  let r := sec t mod 86400 in
  appendInt year 4 ++ "-" ++ appendInt month 2 ++ "-" ++ appendInt day 2
  ++ "T" ++ appendInt (r / 3600) 2 ++ ":" ++ appendInt ((r / 60) mod 60) 2
  ++ ":" ++ appendInt (r mod 60) 2
  ++ "." ++ fmt.padZeros 9 (fmt.FormatUint (nsec t)).

End time.

(** Package [unicode/utf8]: the validity test behind the error of the
    encoder's [WriteString]. *)
Module utf8.

Definition between (lo hi : Z) (c : byte) : bool :=
  (lo <=? byte_val c) && (byte_val c <=? hi).

Definition cont (c : byte) : bool := between 128 191 c.

Fixpoint ValidString (s : string) : bool :=
  match s with
  | EmptyString => true
  | String b0 s1 =>
      if byte_val b0 <? 128 then ValidString s1
      else if between 194 223 b0 then
        match s1 with
        | String b1 s2 => cont b1 && ValidString s2
        | _ => false
        end
      else if between 224 239 b0 then
        match s1 with
        | String b1 (String b2 s3) =>
            (if byte_val b0 =? 224 then between 160 191 b1
             else if byte_val b0 =? 237 then between 128 159 b1
             else cont b1)
            && cont b2 && ValidString s3
        | _ => false
        end
      else if between 240 244 b0 then
        match s1 with
        | String b1 (String b2 (String b3 s4)) =>
            (if byte_val b0 =? 240 then between 144 191 b1
             else if byte_val b0 =? 244 then between 128 143 b1
             else cont b1)
            && cont b2 && cont b3 && ValidString s4
        | _ => false
        end
      else false
  end.

End utf8.

(** Package [protoreflect]: names. *)
Module protoreflect.

Definition FullName := string.
Definition Name := string.
Definition FieldNumber := Z.

Definition isLetter (c : byte) : bool :=
  byte_eqb c "_" || strs.isASCIILower c || strs.isASCIIUpper c.

Definition isLetterDigit (c : byte) : bool :=
  isLetter c || strs.isASCIIDigit c.

(** Go's [s[i:]]. *)
Fixpoint drop (i : nat) (s : string) : string :=
  match i, s with
  | O, _ => s
  | S i', EmptyString => EmptyString
  | S i', String _ s' => drop i' s'
  end.

Fixpoint identTail (s : string) : nat :=
  match s with
  | EmptyString => O
  | String c s' => if isLetterDigit c then S (identTail s') else O
  end.

(** [consumeIdent s]: the length of the identifier [s] starts with,
    [None] for Go's -1. *)
Definition consumeIdent (s : string) : option nat :=
  match s with
  | EmptyString => None
  | String c s' => if isLetter c then Some (S (identTail s')) else None
  end.

(** The loop of [FullName.IsValid]: while [len(s) > i], a dot and an
    identifier.  Every round moves [i] on, so [length s] rounds are
    enough. *)
Fixpoint IsValid_loop (fuel : nat) (s : string) (i : nat) : bool :=
  if (String.length s <=? i)%nat then true
  else
    match fuel with
    | O => false
    | S fuel' =>
        match get i s with
        | Some c =>
            if negb (byte_eqb c ".") then false
            else
              match consumeIdent (drop (S i) s) with
              | None => false
              | Some n => IsValid_loop fuel' s (S i + n)
              end
        | None => false
        end
    end.

Definition FullName_IsValid (s : FullName) : bool :=
  match consumeIdent s with
  | None => false
  | Some i => IsValid_loop (String.length s) s i
  end.

Definition FullName_Parent (n : FullName) : FullName :=
  match strings.LastIndexByte n "." with
  | Some i => substring 0 i n
  | None => ""
  end.

Definition FullName_Name (n : FullName) : Name :=
  match strings.LastIndexByte n "." with
  | Some i => drop (S i) n
  | None => n
  end.

End protoreflect.

(** ** Regular expressions, for the byte-level contracts of the output *)

Module regexp.

Inductive regex :=
| Void
| Eps
| Class (p : byte -> bool)
| Cat (r1 r2 : regex)
| Alt (r1 r2 : regex)
| Star (r : regex).

Definition Chr (c : byte) : regex := Class (byte_eqb c).
Definition Opt (r : regex) : regex := Alt Eps r.
Definition Plus (r : regex) : regex := Cat r (Star r).

Fixpoint Rep (n : nat) (r : regex) : regex :=
  match n with
  | O => Eps
  | S n' => Cat r (Rep n' r)
  end.

Fixpoint nullable (r : regex) : bool :=
  match r with
  | Void => false
  | Eps => true
  | Class _ => false
  | Cat r1 r2 => nullable r1 && nullable r2
  | Alt r1 r2 => nullable r1 || nullable r2
  | Star _ => true
  end.

Fixpoint deriv (c : byte) (r : regex) : regex :=
  match r with
  | Void => Void
  | Eps => Void
  | Class p => if p c then Eps else Void
  | Cat r1 r2 =>
      if nullable r1
      then Alt (Cat (deriv c r1) r2) (deriv c r2)
      else Cat (deriv c r1) r2
  | Alt r1 r2 => Alt (deriv c r1) (deriv c r2)
  | Star r1 => Cat (deriv c r1) (Star r1)
  end.

(** [MatchString r s]: the whole of [s] is in the language of [r]
    (the expressions of the contracts are anchored with [^] and [$]). *)
Fixpoint MatchString (r : regex) (s : string) : bool :=
  match s with
  | EmptyString => nullable r
  | String c s' => MatchString (deriv c r) s'
  end.

(** The language of an expression. *)
Inductive matches : regex -> string -> Prop :=
| MEps : matches Eps ""
| MClass p c : p c = true -> matches (Class p) (String c "")
| MCat r1 r2 s1 s2 :
    matches r1 s1 -> matches r2 s2 -> matches (Cat r1 r2) (s1 ++ s2)
| MAltL r1 r2 s : matches r1 s -> matches (Alt r1 r2) s
| MAltR r1 r2 s : matches r2 s -> matches (Alt r1 r2) s
| MStar0 r : matches (Star r) ""
| MStarS r s1 s2 :
    matches r s1 -> matches (Star r) s2 -> matches (Star r) (s1 ++ s2).

Definition digit : regex := Class strs.isASCIIDigit.

(** [(\.[0-9]{3}|\.[0-9]{6}|\.[0-9]{9})?] *)
Definition fraction : regex :=
  Opt (Alt (Cat (Chr ".") (Rep 3 digit))
      (Alt (Cat (Chr ".") (Rep 6 digit))
           (Cat (Chr ".") (Rep 9 digit)))).

(** [^-?[0-9]+(\.[0-9]{3}|\.[0-9]{6}|\.[0-9]{9})?s$] *)
Definition duration_text : regex :=
  Cat (Opt (Chr "-")) (Cat (Plus digit) (Cat fraction (Chr "s"))).

(** [^[0-9]{4}-[0-9]{2}-[0-9]{2}T[0-9]{2}:[0-9]{2}:[0-9]{2}(\.[0-9]{3}|\.[0-9]{6}|\.[0-9]{9})?Z$] *)
Definition timestamp_text : regex :=
  Cat (Rep 4 digit) (Cat (Chr "-") (Cat (Rep 2 digit) (Cat (Chr "-")
  (Cat (Rep 2 digit) (Cat (Chr "T") (Cat (Rep 2 digit) (Cat (Chr ":")
  (Cat (Rep 2 digit) (Cat (Chr ":") (Cat (Rep 2 digit)
  (Cat fraction (Chr "Z")))))))))))).

End regexp.

(** ** Errors *)

(** [errors.New(f, x...)] keeps its format and arguments, so that a
    theorem can say which field or value an error names. *)
Module errors.

Inductive arg :=
| ArgString (s : string)
| ArgInt (z : Z)
| ArgFloat (f : float)
| ArgError (e : error)
with error :=
| New (format : string) (args : list arg)
| errInvalidUTF8
| External (msg : string).

End errors.

(** What a Go function that returns [error] does: it returns [nil] or an
    error, or panics. *)
Inductive outcome :=
| Return (err : option errors.error)
| Panic.

(** ** Messages, as [protoreflect] shows them *)

(** A [protoreflect.Value] is a union; its typed accessors panic on the
    wrong arm.  A [protoreflect.Message] is seen through the methods the
    marshalers call: the full name of its descriptor, [Has], [Get] and
    [WhichOneof].  A field descriptor is identified with its number:
    [fds.ByNumber(n)] is [n], and a number the descriptor does not have
    reads as [ValueInvalid]. *)
Inductive Value :=
| ValueInvalid
| ValueOfBool (b : bool)
| ValueOfInt32 (z : Z)
| ValueOfInt64 (z : Z)
| ValueOfUint32 (z : Z)
| ValueOfUint64 (z : Z)
| ValueOfFloat32 (f : float)
| ValueOfFloat64 (f : float)
| ValueOfString (s : string)
| ValueOfBytes (b : string)
| ValueOfEnum (n : Z)
| ValueOfList (l : list Value)
| ValueOfMap (kv : list (Value * Value))
| ValueOfMessage (m : Message)
with Message :=
| mkMessage (FullName : protoreflect.FullName)
            (Has : protoreflect.FieldNumber -> bool)
            (Get : protoreflect.FieldNumber -> Value)
            (WhichOneof : protoreflect.Name -> option protoreflect.FieldNumber).

Definition FieldDescriptor := protoreflect.FieldNumber.

Definition Descriptor_FullName (m : Message) : protoreflect.FullName :=
  match m with mkMessage n _ _ _ => n end.
Definition Has (m : Message) (fd : FieldDescriptor) : bool :=
  match m with mkMessage _ h _ _ => h fd end.
Definition Get (m : Message) (fd : FieldDescriptor) : Value :=
  match m with mkMessage _ _ g _ => g fd end.
Definition WhichOneof (m : Message) (od : protoreflect.Name) : option FieldDescriptor :=
  match m with mkMessage _ _ _ w => w od end.

(** [v.Int()], [v.Float()], [v.Bytes()], [v.List()], [v.Map()]: [None]
    where Go panics. *)
Definition Value_Int (v : Value) : option Z :=
  match v with
  | ValueOfInt32 z | ValueOfInt64 z => Some z
  | _ => None
  end.

Definition Value_Float (v : Value) : option float :=
  match v with
  | ValueOfFloat32 f | ValueOfFloat64 f => Some f
  | _ => None
  end.

Definition Value_Bytes (v : Value) : option string :=
  match v with
  | ValueOfBytes b => Some b
  | _ => None
  end.

Definition Value_List (v : Value) : option (list Value) :=
  match v with
  | ValueOfList l => Some l
  | _ => None
  end.

Definition Value_Map (v : Value) : option (list (Value * Value)) :=
  match v with
  | ValueOfMap kv => Some kv
  | _ => None
  end.

(** Package [math]. *)
Module math.
Definition IsNaN (f : float) : bool := negb (PrimFloat.eqb f f).
(** [IsInf(f, 0)] *)
Definition IsInf (f : float) : bool :=
  PrimFloat.ltb 0x1.fffffffffffffp+1023%float f
  || PrimFloat.ltb f (-0x1.fffffffffffffp+1023)%float.
End math.

(** Modelled from the spec: the constants of package [genid], which the
    sources use and do not contain.  They name the nine well-known shapes
    of the package [google.protobuf] and their fields. *)
Module genid.
Definition GoogleProtobuf_package : protoreflect.FullName := "google.protobuf".

Definition Any_message_name : protoreflect.Name := "Any".
Definition Any_message_fullname : protoreflect.FullName := "google.protobuf.Any".
Definition Any_TypeUrl_field_name : protoreflect.Name := "type_url".
Definition Any_TypeUrl_field_number : protoreflect.FieldNumber := 1.
Definition Any_Value_field_number : protoreflect.FieldNumber := 2.

Definition Timestamp_message_name : protoreflect.Name := "Timestamp".
Definition Timestamp_message_fullname : protoreflect.FullName := "google.protobuf.Timestamp".
Definition Timestamp_Seconds_field_number : protoreflect.FieldNumber := 1.
Definition Timestamp_Nanos_field_number : protoreflect.FieldNumber := 2.

Definition Duration_message_name : protoreflect.Name := "Duration".
Definition Duration_message_fullname : protoreflect.FullName := "google.protobuf.Duration".
Definition Duration_Seconds_field_number : protoreflect.FieldNumber := 1.
Definition Duration_Nanos_field_number : protoreflect.FieldNumber := 2.

Definition BoolValue_message_name : protoreflect.Name := "BoolValue".
Definition Int32Value_message_name : protoreflect.Name := "Int32Value".
Definition Int64Value_message_name : protoreflect.Name := "Int64Value".
Definition UInt32Value_message_name : protoreflect.Name := "UInt32Value".
Definition UInt64Value_message_name : protoreflect.Name := "UInt64Value".
Definition FloatValue_message_name : protoreflect.Name := "FloatValue".
Definition DoubleValue_message_name : protoreflect.Name := "DoubleValue".
Definition StringValue_message_name : protoreflect.Name := "StringValue".
Definition BytesValue_message_name : protoreflect.Name := "BytesValue".
Definition WrapperValue_Value_field_number : protoreflect.FieldNumber := 1.

Definition Struct_message_name : protoreflect.Name := "Struct".
Definition Struct_Fields_field_number : protoreflect.FieldNumber := 1.

Definition ListValue_message_name : protoreflect.Name := "ListValue".
Definition ListValue_Values_field_number : protoreflect.FieldNumber := 1.

Definition Value_message_name : protoreflect.Name := "Value".
Definition Value_message_fullname : protoreflect.FullName := "google.protobuf.Value".
Definition Value_Kind_oneof_name : protoreflect.Name := "kind".
Definition Value_NumberValue_field_number : protoreflect.FieldNumber := 2.
Definition Value_NumberValue_field_fullname : protoreflect.FullName :=
  "google.protobuf.Value.number_value".

Definition FieldMask_message_name : protoreflect.Name := "FieldMask".
Definition FieldMask_Paths_field_number : protoreflect.FieldNumber := 1.
Definition FieldMask_Paths_field_fullname : protoreflect.FullName :=
  "google.protobuf.FieldMask.paths".

Definition Empty_message_name : protoreflect.Name := "Empty".
End genid.

(** ** The token writer *)

(** Modelled from the spec: the encoder type and its token writer, which
    the sources use and do not contain ([StartObject], [EndObject],
    [WriteName], [WriteString]).  What it has written is the sequence of
    JSON tokens; a [String] token stands for the JSON string, quoted and
    escaped, a number token for the bare number. *)
Inductive Token :=
| ObjectOpen
| ObjectClose
| ArrayOpen
| ArrayClose
| Name (s : string)
| String_ (s : string)
| Number (digits : string)
| Bool_ (b : bool)
| Null.

(** The registry [opts.Resolver]: [FindMessageByURL] gives a message type,
    seen through the fresh message [New()] makes and the full name of its
    descriptor. *)
Record MessageType := mkMessageType {
  New : Message;
  MessageType_FullName : protoreflect.FullName
}.

Record MarshalOptions := mkMarshalOptions {
  Resolver_FindMessageByURL : string -> MessageType + errors.error
}.

Record encoder := mkEncoder {
  out : list Token;
  opts : MarshalOptions
}.

Definition write (e : encoder) (t : Token) : encoder :=
  mkEncoder (out e ++ [t]) (opts e).

Definition StartObject (e : encoder) : encoder := write e ObjectOpen.
Definition EndObject (e : encoder) : encoder := write e ObjectClose.
Definition WriteName (e : encoder) (s : string) : encoder := write e (Name s).

(** [WriteString] appends the string token.  The sources test the error
    it returns ([marshalAny]) and do not say when it fails: the failure
    taken here is the one of the JSON writer of protobuf-go, on a string
    that is not valid UTF-8.  What the writer has written when it fails
    is not fixed by the sources; the properties below that depend on
    [WriteString] after its error was tested are stated for strings it
    accepts, or for calls that do not return this error. *)
Definition WriteString (e : encoder) (s : string) : encoder * option errors.error :=
  (write e (String_ s),
   if utf8.ValidString s then None else Some errors.errInvalidUTF8).

(** The functions [wellKnownTypeMarshaler] can return. *)
Inductive marshalFunc :=
| encoder_marshalAny
| encoder_marshalTimestamp
| encoder_marshalDuration
| encoder_marshalWrapperType
| encoder_marshalStruct
| encoder_marshalListValue
| encoder_marshalKnownValue
| encoder_marshalFieldMask
| encoder_marshalEmpty.

Definition name_in (n : protoreflect.Name) (l : list protoreflect.Name) : bool :=
  existsb (String.eqb n) l.

(** [wellKnownTypeMarshaler]: [None] is Go's [nil]. *)
Definition wellKnownTypeMarshaler (name : protoreflect.FullName) : option marshalFunc :=
  if String.eqb (protoreflect.FullName_Parent name) genid.GoogleProtobuf_package then
    let n := protoreflect.FullName_Name name in
    if String.eqb n genid.Any_message_name then Some encoder_marshalAny
    else if String.eqb n genid.Timestamp_message_name then Some encoder_marshalTimestamp
    else if String.eqb n genid.Duration_message_name then Some encoder_marshalDuration
    else if name_in n [genid.BoolValue_message_name;
                       genid.Int32Value_message_name;
                       genid.Int64Value_message_name;
                       genid.UInt32Value_message_name;
                       genid.UInt64Value_message_name;
                       genid.FloatValue_message_name;
                       genid.DoubleValue_message_name;
                       genid.StringValue_message_name;
                       genid.BytesValue_message_name]
         then Some encoder_marshalWrapperType
    else if String.eqb n genid.Struct_message_name then Some encoder_marshalStruct
    else if String.eqb n genid.ListValue_message_name then Some encoder_marshalListValue
    else if String.eqb n genid.Value_message_name then Some encoder_marshalKnownValue
    else if String.eqb n genid.FieldMask_message_name then Some encoder_marshalFieldMask
    else if String.eqb n genid.Empty_message_name then Some encoder_marshalEmpty
    else None
  else None.

(** ** The well-known-type marshalers *)

(** The generic path of the encoder, which the marshalers call and the
    sources do not contain: the singular, map, list and message encoders,
    the binary decoder [proto.UnmarshalOptions.Unmarshal] of an Any's
    payload, and [fmt.Sprint] behind [Value.String] on a value that is
    not a string. *)
Record Collaborators := mkCollaborators {
  marshalSingular : encoder -> Value -> FieldDescriptor -> encoder * outcome;
  marshalMap : encoder -> list (Value * Value) -> FieldDescriptor -> encoder * outcome;
  marshalList : encoder -> list Value -> FieldDescriptor -> encoder * outcome;
  marshalMessage : encoder -> Message -> string -> encoder * outcome;
  proto_Unmarshal : MarshalOptions -> string -> Message -> Message * option errors.error;
  fmt_Sprint : Value -> string
}.

Definition secondsInNanos : Z := 999999999.
Definition maxSecondsInDuration : Z := 315576000000.
Definition maxTimestampSeconds : Z := 253402300799.
Definition minTimestampSeconds : Z := -62135596800.

Section WellKnown.

Variable C : Collaborators.

(** [v.String()] *)
Definition Value_String (v : Value) : string :=
  match v with
  | ValueOfString s => s
  | _ => fmt_Sprint C v
  end.

Definition marshalWrapperType (e : encoder) (m : Message) : encoder * outcome :=
  let fd := genid.WrapperValue_Value_field_number in
  let val := Get m fd in
  marshalSingular C e val fd.

Definition marshalEmpty (e : encoder) (_ : Message) : encoder * outcome :=
  let e := StartObject e in
  let e := EndObject e in
  (e, Return None).

Definition marshalStruct (e : encoder) (m : Message) : encoder * outcome :=
  let fd := genid.Struct_Fields_field_number in
  match Value_Map (Get m fd) with
  | Some mp => marshalMap C e mp fd
  | None => (e, Panic)
  end.

Definition marshalListValue (e : encoder) (m : Message) : encoder * outcome :=
  let fd := genid.ListValue_Values_field_number in
  match Value_List (Get m fd) with
  | Some l => marshalList C e l fd
  | None => (e, Panic)
  end.

Definition marshalKnownValue (e : encoder) (m : Message) : encoder * outcome :=
  let od := genid.Value_Kind_oneof_name in
  match WhichOneof m od with
  | None =>
      (e, Return (Some (errors.New "%s: none of the oneof fields is set"
                          [errors.ArgString genid.Value_message_fullname])))
  | Some fd =>
      if fd =? genid.Value_NumberValue_field_number then
        match Value_Float (Get m fd) with
        | None => (e, Panic)
        | Some v =>
            if math.IsNaN v || math.IsInf v then
              (e, Return (Some (errors.New "%s: invalid %v value"
                                  [errors.ArgString genid.Value_NumberValue_field_fullname;
                                   errors.ArgFloat v])))
            else marshalSingular C e (Get m fd) fd
        end
      else marshalSingular C e (Get m fd) fd
  end.

Definition marshalDuration (e : encoder) (m : Message) : encoder * outcome :=
  let fdSeconds := genid.Duration_Seconds_field_number in
  let fdNanos := genid.Duration_Nanos_field_number in
  let secsVal := Get m fdSeconds in
  let nanosVal := Get m fdNanos in
  match Value_Int secsVal, Value_Int nanosVal with
  | Some secs, Some nanos =>
      if (secs <? - maxSecondsInDuration) || (maxSecondsInDuration <? secs) then
        (e, Return (Some (errors.New "%s: seconds out of range %v"
                            [errors.ArgString genid.Duration_message_fullname;
                             errors.ArgInt secs])))
      else if (nanos <? - secondsInNanos) || (secondsInNanos <? nanos) then
        (e, Return (Some (errors.New "%s: nanos out of range %v"
                            [errors.ArgString genid.Duration_message_fullname;
                             errors.ArgInt nanos])))
      else if ((0 <? secs) && (nanos <? 0)) || ((secs <? 0) && (0 <? nanos)) then
        (e, Return (Some (errors.New "%s: signs of seconds and nanos do not match"
                            [errors.ArgString genid.Duration_message_fullname])))
      else
        let '(sign, secs, nanos) :=
          if (secs <? 0) || (nanos <? 0)
          then ("-", wrap64 (-1 * secs), wrap64 (-1 * nanos))
          else ("", secs, nanos) in
        let x := sign ++ fmt.Sprintf_d secs ++ "." ++ fmt.Sprintf_09d nanos in
        let x := strings.TrimSuffix x "000" in
        let x := strings.TrimSuffix x "000" in
        let x := strings.TrimSuffix x ".000" in
        let (e, _) := WriteString e (x ++ "s") in
        (e, Return None)
  | _, _ => (e, Panic)
  end.

Definition marshalTimestamp (e : encoder) (m : Message) : encoder * outcome :=
  let fdSeconds := genid.Timestamp_Seconds_field_number in
  let fdNanos := genid.Timestamp_Nanos_field_number in
  let secsVal := Get m fdSeconds in
  let nanosVal := Get m fdNanos in
  match Value_Int secsVal, Value_Int nanosVal with
  | Some secs, Some nanos =>
      if (secs <? minTimestampSeconds) || (maxTimestampSeconds <? secs) then
        (e, Return (Some (errors.New "%s: seconds out of range %v"
                            [errors.ArgString genid.Timestamp_message_fullname;
                             errors.ArgInt secs])))
      else if (nanos <? 0) || (secondsInNanos <? nanos) then
        (e, Return (Some (errors.New "%s: nanos out of range %v"
                            [errors.ArgString genid.Timestamp_message_fullname;
                             errors.ArgInt nanos])))
      else
        let t := time.UTC (time.Unix secs nanos) in
        let x := time.Format_2006_01_02T15_04_05_000000000 t in
        let x := strings.TrimSuffix x "000" in
        let x := strings.TrimSuffix x "000" in
        let x := strings.TrimSuffix x ".000" in
        let (e, _) := WriteString e (x ++ "Z") in
        (e, Return None)
  | _, _ => (e, Panic)
  end.

(** The loop of [marshalFieldMask] over the rest [lst] of the list:
    [paths] holds the converted paths so far. *)
Fixpoint marshalFieldMask_loop (lst : list Value) (paths : list string)
  : list string + errors.error :=
  match lst with
  | [] => inl paths
  | v :: rest =>
      let s := Value_String v in
      if negb (protoreflect.FullName_IsValid s) then
        inr (errors.New "%s contains invalid path: %q"
               [errors.ArgString genid.FieldMask_Paths_field_fullname;
                errors.ArgString s])
      else
        let cc := strs.JSONCamelCase s in
        if negb (String.eqb s (strs.JSONSnakeCase cc)) then
          inr (errors.New "%s contains irreversible value %q"
                 [errors.ArgString genid.FieldMask_Paths_field_fullname;
                  errors.ArgString s])
        else marshalFieldMask_loop rest (paths ++ [cc])
  end.

Definition marshalFieldMask (e : encoder) (m : Message) : encoder * outcome :=
  let fd := genid.FieldMask_Paths_field_number in
  match Value_List (Get m fd) with
  | None => (e, Panic)
  | Some lst =>
      match marshalFieldMask_loop lst [] with
      | inr err => (e, Return (Some err))
      | inl paths =>
          let (e, _) := WriteString e (strings.Join paths ",") in
          (e, Return None)
      end
  end.

(** [marshalAny] reaches itself through [wellKnownTypeMarshaler] when an
    Any holds an Any: [depth] bounds the nesting, and [Panic] at depth 0
    stands for the exhausted stack. *)
Fixpoint marshalAny (depth : nat) (e : encoder) (m : Message) : encoder * outcome :=
  match depth with
  | O => (e, Panic)
  | S depth' =>
      let fdType := genid.Any_TypeUrl_field_number in
      let fdValue := genid.Any_Value_field_number in
      if negb (Has m fdType) then
        if negb (Has m fdValue) then
          let e := StartObject e in
          let e := EndObject e in
          (e, Return None)
        else
          (e, Return (Some (errors.New "%s: %v is not set"
                              [errors.ArgString genid.Any_message_fullname;
                               errors.ArgString genid.Any_TypeUrl_field_name])))
      else
        let typeVal := Get m fdType in
        let valueVal := Get m fdValue in
        let typeURL := Value_String typeVal in
        match Resolver_FindMessageByURL (opts e) typeURL with
        | inr err =>
            (e, Return (Some (errors.New "%s: unable to resolve %q: %v"
                                [errors.ArgString genid.Any_message_fullname;
                                 errors.ArgString typeURL; errors.ArgError err])))
        | inl emt =>
            let em := New emt in
            match Value_Bytes valueVal with
            | None => (e, Panic)
            | Some b =>
                let (em, err) := proto_Unmarshal C (opts e) b em in
                match err with
                | Some err =>
                    (e, Return (Some (errors.New "%s: unable to unmarshal %q: %v"
                                        [errors.ArgString genid.Any_message_fullname;
                                         errors.ArgString typeURL; errors.ArgError err])))
                | None =>
                    match wellKnownTypeMarshaler (MessageType_FullName emt) with
                    | Some marshal =>
                        let e := StartObject e in
                        (* defer e.EndObject() *)
                        let e := WriteName e "@type" in
                        let (e, err) := WriteString e typeURL in
                        match err with
                        | Some err => (EndObject e, Return (Some err))
                        | None =>
                            let e := WriteName e "value" in
                            let (e, r) :=
                              match marshal with
                              | encoder_marshalAny => marshalAny depth' e em
                              | encoder_marshalTimestamp => marshalTimestamp e em
                              | encoder_marshalDuration => marshalDuration e em
                              | encoder_marshalWrapperType => marshalWrapperType e em
                              | encoder_marshalStruct => marshalStruct e em
                              | encoder_marshalListValue => marshalListValue e em
                              | encoder_marshalKnownValue => marshalKnownValue e em
                              | encoder_marshalFieldMask => marshalFieldMask e em
                              | encoder_marshalEmpty => marshalEmpty e em
                              end in
                            (EndObject e, r)
                        end
                    | None => marshalMessage C e em typeURL
                    end
                end
            end
        end
  end.

End WellKnown.

(** ** Messages of the well-known shapes *)

Definition Duration_message (secs nanos : Z) : Message :=
  mkMessage genid.Duration_message_fullname
    (fun fd => if fd =? genid.Duration_Seconds_field_number then negb (secs =? 0)
               else if fd =? genid.Duration_Nanos_field_number then negb (nanos =? 0)
               else false)
    (fun fd => if fd =? genid.Duration_Seconds_field_number then ValueOfInt64 secs
               else if fd =? genid.Duration_Nanos_field_number then ValueOfInt32 nanos
               else ValueInvalid)
    (fun _ => None).

Definition Timestamp_message (secs nanos : Z) : Message :=
  mkMessage genid.Timestamp_message_fullname
    (fun fd => if fd =? genid.Timestamp_Seconds_field_number then negb (secs =? 0)
               else if fd =? genid.Timestamp_Nanos_field_number then negb (nanos =? 0)
               else false)
    (fun fd => if fd =? genid.Timestamp_Seconds_field_number then ValueOfInt64 secs
               else if fd =? genid.Timestamp_Nanos_field_number then ValueOfInt32 nanos
               else ValueInvalid)
    (fun _ => None).

Definition FieldMask_message (paths : list string) : Message :=
  mkMessage "google.protobuf.FieldMask"
    (fun fd => (fd =? genid.FieldMask_Paths_field_number)
               && negb (Nat.eqb (List.length paths) 0))
    (fun fd => if fd =? genid.FieldMask_Paths_field_number
               then ValueOfList (map ValueOfString paths)
               else ValueInvalid)
    (fun _ => None).

(** An Any whose fields are set or not ([None]). *)
Definition Any_message (type_url value : option string) : Message :=
  mkMessage genid.Any_message_fullname
    (fun fd => if fd =? genid.Any_TypeUrl_field_number
               then match type_url with Some _ => true | None => false end
               else if fd =? genid.Any_Value_field_number
               then match value with Some _ => true | None => false end
               else false)
    (fun fd => if fd =? genid.Any_TypeUrl_field_number
               then ValueOfString (match type_url with Some u => u | None => "" end)
               else if fd =? genid.Any_Value_field_number
               then ValueOfBytes (match value with Some b => b | None => "" end)
               else ValueInvalid)
    (fun _ => None).

(** A [google.protobuf.Value] with the arm [kind] of its oneof set, or
    none. *)
Definition Value_message (kind : option (protoreflect.FieldNumber * Value)) : Message :=
  mkMessage genid.Value_message_fullname
    (fun fd => match kind with Some (n, _) => fd =? n | None => false end)
    (fun fd => match kind with
               | Some (n, v) => if fd =? n then v else ValueInvalid
               | None => ValueInvalid
               end)
    (fun od => if String.eqb od genid.Value_Kind_oneof_name
               then match kind with Some (n, _) => Some n | None => None end
               else None).

(** A wrapper message holding [v]. *)
Definition Wrapper_message (name : protoreflect.FullName) (v : Value) : Message :=
  mkMessage name
    (fun fd => fd =? genid.WrapperValue_Value_field_number)
    (fun fd => if fd =? genid.WrapperValue_Value_field_number then v else ValueInvalid)
    (fun _ => None).

(** ** The gateway marshaler [JSONPb] *)

(** A Go value behind [interface{}], as far as [JSONPb] tells values
    apart: one whose type implements [proto.Message], or plain Go data. *)
Inductive GoValue :=
| GoProto (p : Message)
| GoInt64 (z : Z)
| GoString (s : string)
| GoStruct (fields : list (string * GoValue)).

(** The type assertion [v.(proto.Message)]. *)
Definition as_proto_Message (v : GoValue) : option Message :=
  match v with
  | GoProto p => Some p
  | _ => None
  end.

(** What [JSONPb] calls outside this package: [encoding/json], the
    package's own [MarshalOptions.Marshal] (not in the sources) and
    [protojson.UnmarshalOptions.Unmarshal]. *)
Record Codecs := mkCodecs {
  json_Marshal : GoValue -> string * option errors.error;
  json_Unmarshal : string -> GoValue -> GoValue * option errors.error;
  json_Decoder_Decode : string -> string * option errors.error;
  MarshalOptions_Marshal : Message -> string * option errors.error;
  UnmarshalOptions_Unmarshal : string -> Message -> Message * option errors.error
}.

(** An [io.Writer] with states of type [S], seen through its method
    [Write]: from the state of the writer and the bytes to write, the
    state after the call and the error it returns (a short write is an
    error). *)
Definition Writer (S : Type) : Type := S -> string -> S * option errors.error.

(** [bytes.Buffer]: its state is its content; [Write] appends and
    returns no error. *)
Definition bytes_Buffer : Writer string := fun buf p => (buf ++ p, None).

Module JSONPb.
Section JSONPb.

Variable J : Codecs.

(** [marshalTo(w, v)]: [Write] is the method of the writer and [w] its
    state; the result is the state after the call and the error
    returned. *)
Definition marshalTo {S : Type} (Write : Writer S) (w : S) (v : GoValue)
  : S * option errors.error :=
  match as_proto_Message v with
  | None =>
      let (buf, err) := json_Marshal J v in
      match err with
      | Some err => (w, Some err)
      | None => Write w buf
      end
  | Some p =>
      let (b, err) := MarshalOptions_Marshal J p in
      match err with
      | Some err => (w, Some err)
      | None => Write w b
      end
  end.

(** [Marshal(v)]; the empty string stands for the [nil] slice. *)
Definition Marshal (v : GoValue) : string * option errors.error :=
  match as_proto_Message v with
  | None => json_Marshal J v
  | Some _ =>
      let (buf, err) := marshalTo bytes_Buffer "" v in
      match err with
      | Some err => ("", Some err)
      | None => (buf, None)
      end
  end.

Definition unmarshalJSONPb (data : string) (v : GoValue) : GoValue * option errors.error :=
  match as_proto_Message v with
  | None => json_Unmarshal J data v
  | Some p =>
      let (b, err) := json_Decoder_Decode J data in
      match err with
      | Some err => (v, Some err)
      | None =>
          let (p', err) := UnmarshalOptions_Unmarshal J b p in
          (GoProto p', err)
      end
  end.

Definition Unmarshal (data : string) (v : GoValue) : GoValue * option errors.error :=
  unmarshalJSONPb data v.

End JSONPb.
End JSONPb.

(** Package [encoding/json], on plain data: an integer is a bare JSON
    number, a string of unescaped ASCII is quoted, a struct is an object
    of its exported fields in order.  [None] is a value outside this
    fragment. *)
Module encoding_json.

Definition quote : byte := byte_of_Z 34.

Definition quoted (s : string) : string := String quote (s ++ String quote "").

(** Bytes [json.Marshal] copies as they are: printable ASCII but the
    quote, the backslash and the HTML characters. *)
Definition plain (c : byte) : bool :=
  (32 <=? byte_val c) && (byte_val c <? 127)
  && negb (byte_eqb c quote) && negb (byte_eqb c "\")
  && negb (byte_eqb c "<") && negb (byte_eqb c ">") && negb (byte_eqb c "&").

Fixpoint all_plain (s : string) : bool :=
  match s with
  | EmptyString => true
  | String c s' => plain c && all_plain s'
  end.

Fixpoint encode (v : GoValue) : option string :=
  match v with
  | GoProto _ => None
  | GoInt64 z => Some (fmt.Sprintf_d z)
  | GoString s => if all_plain s then Some (quoted s) else None
  | GoStruct fields =>
      let fix members (fs : list (string * GoValue)) : option (list string) :=
        match fs with
        | [] => Some []
        | (k, x) :: fs' =>
            if all_plain k then
              match encode x, members fs' with
              | Some t, Some ts => Some ((quoted k ++ ":" ++ t) :: ts)
              | _, _ => None
              end
            else None
        end in
      match members fields with
      | Some ms => Some ("{" ++ strings.Join ms "," ++ "}")
      | None => None
      end
  end.

Definition Marshal (v : GoValue) : string * option errors.error :=
  match encode v with
  | Some b => (b, None)
  | None => ("", Some (errors.External "json: unsupported value"))
  end.

End encoding_json.

(** ** The name converter, in the words of the specification *)

(** [toCamel] as the specification words it: an underscore is dropped,
    and the letter after it upper-cased, only when a lowercase ASCII
    letter follows; a trailing underscore, or one before anything else,
    stays. *)
Fixpoint toCamel_spec (s : string) : string :=
  match s with
  | EmptyString => EmptyString
  | String c s' =>
      if byte_eqb c "_" then
        match s' with
        | String d s'' =>
            if strs.isASCIILower d
            then String (byte_sub d (byte_val "a" - byte_val "A")) (toCamel_spec s'')
            else String c (toCamel_spec s')
        | EmptyString => String c EmptyString
        end
      else String c (toCamel_spec s')
  end.

(** The trimming both [marshalDuration] and [marshalTimestamp] apply. *)
Definition trimFraction (x : string) : string :=
  strings.TrimSuffix (strings.TrimSuffix (strings.TrimSuffix x "000") "000") ".000".

(** Every byte of [s] is a decimal digit. *)
Fixpoint all_digits (s : string) : bool :=
  match s with
  | EmptyString => true
  | String c s' => strs.isASCIIDigit c && all_digits s'
  end.

(** How many bytes of [s] are [c]. *)
Fixpoint count_byte (c : byte) (s : string) : nat :=
  match s with
  | EmptyString => O
  | String d s' => (if byte_eqb d c then 1 else 0) + count_byte c s'
  end.

(** The two tests of [marshalFieldMask] on a path, and the error of the
    one that fails first. *)
Definition path_ok (s : string) : bool :=
  protoreflect.FullName_IsValid s
  && String.eqb s (strs.JSONSnakeCase (strs.JSONCamelCase s)).

Definition path_error (s : string) : errors.error :=
  if negb (protoreflect.FullName_IsValid s)
  then errors.New "%s contains invalid path: %q"
         [errors.ArgString genid.FieldMask_Paths_field_fullname; errors.ArgString s]
  else errors.New "%s contains irreversible value %q"
         [errors.ArgString genid.FieldMask_Paths_field_fullname; errors.ArgString s].

(** The codecs of a gateway that is given plain Go data only:
    [json.Marshal] is [encoding_json.Marshal]; the other codecs are not
    modelled and answer with an error. *)
Definition plain_codecs : Codecs :=
  mkCodecs encoding_json.Marshal
    (fun _ v => (v, Some (errors.External "json: not modelled")))
    (fun _ => ("", Some (errors.External "json: not modelled")))
    (fun _ => ("", Some (errors.External "protojson: not modelled")))
    (fun _ p => (p, Some (errors.External "protojson: not modelled"))).

(** Collaborators for a run that stays inside this file: the generic
    encoders write one string token that names them. *)
Definition naming_collaborators : Collaborators :=
  mkCollaborators
    (fun e _ _ => (write e (String_ "marshalSingular"), Return None))
    (fun e _ _ => (write e (String_ "marshalMap"), Return None))
    (fun e _ _ => (write e (String_ "marshalList"), Return None))
    (fun e _ _ => (write e (String_ "marshalMessage"), Return None))
    (fun _ _ m => (m, None))
    (fun _ => "").

(** An encoder that has written nothing, with an empty registry. *)
Definition empty_encoder : encoder :=
  mkEncoder [] (mkMarshalOptions (fun _ => inr (errors.External "not found"))).

(** The number a string of decimal digits writes, after the digits of
    [v]. *)
Fixpoint digits_value (v : Z) (s : string) : Z :=
  match s with
  | EmptyString => v
  | String c s' => digits_value (v * 10 + (byte_val c - byte_val "0")) s'
  end.

(** ** More of the package: predicates and functions for further properties *)

(** Every byte of [s] passes [p]. *)
Fixpoint all_bytes (p : byte -> bool) (s : string) : bool :=
  match s with
  | EmptyString => true
  | String c s' => p c && all_bytes p s'
  end.

(** The snake_case strings [JSONCamelCase] does not lose anything of: no
    uppercase letter, and a lowercase letter after every underscore. *)
Fixpoint snake_form (s : string) : bool :=
  match s with
  | EmptyString => true
  | String c s' =>
      if byte_eqb c "_" then
        match s' with
        | String d _ => strs.isASCIILower d && snake_form s'
        | EmptyString => false
        end
      else negb (strs.isASCIIUpper c) && snake_form s'
  end.

Module strs_go.

(** [GoCamelCase].  [prev] is [s[i-1]] ([None] when [i == 0]), the
    string is [s[i:]], so that its second byte is [s[i+1]].  The inner
    loop of the default case, which copies the lowercase letters that
    follow, is the flag [inWord]: while it is set a lowercase letter is
    copied as it is, and the first other byte goes through the switch. *)
Fixpoint GoCamelCase_loop (inWord : bool) (prev : option byte) (s : string) : string :=
  match s with
  | EmptyString => EmptyString
  | String c s' =>
      let nextLower := match s' with
                       | String d _ => strs.isASCIILower d
                       | EmptyString => false
                       end in
      if inWord && strs.isASCIILower c then
        String c (GoCamelCase_loop true (Some c) s')
      else if byte_eqb c "." && nextLower then
        GoCamelCase_loop false (Some c) s'
      else if byte_eqb c "." then
        String "_" (GoCamelCase_loop false (Some c) s')
      else if byte_eqb c "_"
              && match prev with
                 | None => true
                 | Some p => byte_eqb p "."
                 end then
        String "X" (GoCamelCase_loop false (Some c) s')
      else if byte_eqb c "_" && nextLower then
        GoCamelCase_loop false (Some c) s'
      else if strs.isASCIIDigit c then
        String c (GoCamelCase_loop false (Some c) s')
      else
        let c' := if strs.isASCIILower c
                  then byte_sub c (byte_val "a" - byte_val "A")
                  else c in
        String c' (GoCamelCase_loop true (Some c) s')
  end.

Definition GoCamelCase (s : string) : string := GoCamelCase_loop false None s.

End strs_go.

(** A lowercase letter may follow [prev] in a camel-cased name: [prev]
    is a byte, and not a digit, an underscore or a dot. *)
Definition may_precede_lower (prev : option byte) : bool :=
  match prev with
  | None => false
  | Some p => negb (strs.isASCIIDigit p) && negb (byte_eqb p "_")
              && negb (byte_eqb p ".")
  end.

(** The invariant the comment of [GoCamelCase] states, on an output:
    a lowercase letter is never the first byte and never follows a digit,
    an underscore or a dot.  [prev] is the byte before [s]. *)
Fixpoint words_capitalized (prev : option byte) (s : string) : bool :=
  match s with
  | EmptyString => true
  | String c s' =>
      (if strs.isASCIILower c then may_precede_lower prev else true)
      && words_capitalized (Some c) s'
  end.

Definition starts_lower (s : string) : bool :=
  match s with
  | String d _ => strs.isASCIILower d
  | EmptyString => false
  end.

(** The bytes of identifiers and paths: letters, digits, underscore and
    dot. *)
Definition isPathByte (c : byte) : bool :=
  protoreflect.isLetterDigit c || byte_eqb c ".".

(** The switch of [wellKnownTypeMarshaler] as a table: the full names it
    answers, each with its function. *)
Definition wellKnownTypes : list (protoreflect.FullName * marshalFunc) :=
  [("google.protobuf.Any", encoder_marshalAny);
   ("google.protobuf.Timestamp", encoder_marshalTimestamp);
   ("google.protobuf.Duration", encoder_marshalDuration);
   ("google.protobuf.BoolValue", encoder_marshalWrapperType);
   ("google.protobuf.Int32Value", encoder_marshalWrapperType);
   ("google.protobuf.Int64Value", encoder_marshalWrapperType);
   ("google.protobuf.UInt32Value", encoder_marshalWrapperType);
   ("google.protobuf.UInt64Value", encoder_marshalWrapperType);
   ("google.protobuf.FloatValue", encoder_marshalWrapperType);
   ("google.protobuf.DoubleValue", encoder_marshalWrapperType);
   ("google.protobuf.StringValue", encoder_marshalWrapperType);
   ("google.protobuf.BytesValue", encoder_marshalWrapperType);
   ("google.protobuf.Struct", encoder_marshalStruct);
   ("google.protobuf.ListValue", encoder_marshalListValue);
   ("google.protobuf.Value", encoder_marshalKnownValue);
   ("google.protobuf.FieldMask", encoder_marshalFieldMask);
   ("google.protobuf.Empty", encoder_marshalEmpty)].

(** The call [marshal(e, em)] of [marshalAny] on the function
    [wellKnownTypeMarshaler] returned; [depth] is what is left for an Any
    inside. *)
Definition callMarshal (C : Collaborators) (depth : nat) (marshal : marshalFunc)
           (e : encoder) (em : Message) : encoder * outcome :=
  match marshal with
  | encoder_marshalAny => marshalAny C depth e em
  | encoder_marshalTimestamp => marshalTimestamp e em
  | encoder_marshalDuration => marshalDuration e em
  | encoder_marshalWrapperType => marshalWrapperType C e em
  | encoder_marshalStruct => marshalStruct C e em
  | encoder_marshalListValue => marshalListValue C e em
  | encoder_marshalKnownValue => marshalKnownValue C e em
  | encoder_marshalFieldMask => marshalFieldMask C e em
  | encoder_marshalEmpty => marshalEmpty e em
  end.

(** [JSONPb.ContentType], [JSONPb.Delimiter] and the encoder
    [JSONPb.NewEncoder] returns, on the writer [Write] in the state
    [w]. *)
Definition JSONPb_ContentType (_ : GoValue) : string := "application/json".

Definition JSONPb_Delimiter : string := String (byte_of_Z 10) "".

Definition JSONPb_NewEncoder (J : Codecs) {S : Type} (Write : Writer S) (w : S)
           (v : GoValue) : S * option errors.error :=
  let (w, err) := JSONPb.marshalTo J Write w v in
  match err with
  | Some err => (w, Some err)
  | None => Write w JSONPb_Delimiter
  end.

(** An encoder that has written nothing, whose registry answers every
    URL with the Duration type; with [naming_collaborators], whose binary
    decoder leaves the fresh message as it is, the payload of every Any
    decodes to the Duration of one and a half seconds. *)
Definition duration_encoder : encoder :=
  mkEncoder []
    (mkMarshalOptions (fun _ =>
       inl (mkMessageType (Duration_message 1 500000000) "google.protobuf.Duration"))).

(** As [duration_encoder], with a type that is not well known. *)
Definition custom_encoder : encoder :=
  mkEncoder []
    (mkMarshalOptions (fun _ =>
       inl (mkMessageType (Duration_message 1 500000000) "my.pkg.Custom"))).

(** The fraction of a second of [nanos] nanoseconds, with the fewest of
    0, 3, 6 or 9 digits that write it exactly. *)
Definition fraction_text (nanos : Z) : string :=
  if nanos =? 0 then ""
  else if nanos mod 1000000 =? 0
       then "." ++ fmt.padZeros 3 (fmt.FormatUint (nanos / 1000000))
  else if nanos mod 1000 =? 0
       then "." ++ fmt.padZeros 6 (fmt.FormatUint (nanos / 1000))
  else "." ++ fmt.padZeros 9 (fmt.FormatUint nanos).

(** The date and time of [Format_2006_01_02T15_04_05_000000000], before
    the dot: [YYYY-MM-DDTHH:MM:SS]. *)
Definition date_time_text (secs : Z) : string :=
  let '(year, month, day) := time.Date (secs / 86400) in
  let r := secs mod 86400 in
  time.appendInt year 4 ++ "-" ++ time.appendInt month 2 ++ "-"
  ++ time.appendInt day 2 ++ "T" ++ time.appendInt (r / 3600) 2 ++ ":"
  ++ time.appendInt ((r / 60) mod 60) 2 ++ ":" ++ time.appendInt (r mod 60) 2.

(** The text [marshalDuration] writes for a Duration it accepts. *)
Definition duration_string (secs nanos : Z) : string :=
  (if (secs <? 0) || (nanos <? 0) then "-" else "")
  ++ fmt.Sprintf_d (Z.abs secs) ++ fraction_text (Z.abs nanos) ++ "s".

(** The text [marshalTimestamp] writes for a Timestamp it accepts. *)
Definition timestamp_string (secs nanos : Z) : string :=
  date_time_text secs ++ fraction_text nanos ++ "Z".

Definition starts_with_digit (s : string) : bool :=
  match s with
  | String c _ => strs.isASCIIDigit c
  | EmptyString => false
  end.

(** What a token sequence leaves open.  [brackets opened l] reads [l]
    with the objects and arrays [opened] (the innermost first) open: an
    opening token opens one more, a closing token must close the
    innermost, of its own kind; [None] when a token closes what is not
    open or the other kind. *)
Inductive bracket := InObject | InArray.

Fixpoint brackets (opened : list bracket) (l : list Token) : option (list bracket) :=
  match l with
  | [] => Some opened
  | ObjectOpen :: l' => brackets (InObject :: opened) l'
  | ArrayOpen :: l' => brackets (InArray :: opened) l'
  | ObjectClose :: l' =>
      match opened with
      | InObject :: opened' => brackets opened' l'
      | _ => None
      end
  | ArrayClose :: l' =>
      match opened with
      | InArray :: opened' => brackets opened' l'
      | _ => None
      end
  | _ :: l' => brackets opened l'
  end.

(** Every object and array opened in [l] is closed in [l], in order, by
    the token of its kind, and nothing else is closed. *)
Definition well_bracketed (l : list Token) : Prop := brackets [] l = Some [].


(** [e'] is [e] after a well-bracketed token sequence was appended; the
    options are the same. *)
Definition extends (e e' : encoder) : Prop :=
  exists l : list Token, e' = mkEncoder (out e ++ l) (opts e) /\ well_bracketed l.


(** A writer that rejects every write; its state counts the calls. *)
Definition rejecting_writer : Writer nat :=
  fun calls _ => (S calls, Some (errors.External "write: closed")).
Example JSONCamelCase_foo_bar : strs.JSONCamelCase "foo_bar" = "fooBar".
Proof. reflexivity. Qed.

Example JSONSnakeCase_fooBar : strs.JSONSnakeCase "fooBar" = "foo_bar".
Proof. reflexivity. Qed.

Example Sprintf_d_0 : fmt.Sprintf_d 0 = "0".
Proof. reflexivity. Qed.

Example Sprintf_d_max : fmt.Sprintf_d 9223372036854775807 = "9223372036854775807".
Proof. reflexivity. Qed.

Example Sprintf_d_neg : fmt.Sprintf_d (-315576000001) = "-315576000001".
Proof. reflexivity. Qed.

Example Sprintf_09d_small : fmt.Sprintf_09d 1500 = "000001500".
Proof. reflexivity. Qed.

Example Sprintf_09d_neg : fmt.Sprintf_09d (-5) = "-00000005".
Proof. reflexivity. Qed.

Example TrimSuffix_ex_hit : strings.TrimSuffix "1.500000" "000" = "1.500".
Proof. reflexivity. Qed.

Example TrimSuffix_ex_miss : strings.TrimSuffix "1.500" ".000" = "1.500".
Proof. reflexivity. Qed.

Example TrimSuffix_ex_short : strings.TrimSuffix "00" "000" = "00".
Proof. reflexivity. Qed.

(** ** Strings: suffixes and trimming *)

Section StringFacts.

Lemma length_app (s t : string) :
  String.length (s ++ t) = (String.length s + String.length t)%nat.
Proof.
  induction s as [|c s IH]; simpl; [reflexivity | now rewrite IH].
Qed.

Lemma app_assoc_string (s t u : string) : (s ++ t) ++ u = s ++ t ++ u.
Proof.
  induction s as [|c s IH]; simpl; [reflexivity | now rewrite IH].
Qed.

Lemma app_empty_r (s : string) : s ++ "" = s.
Proof.
  induction s as [|c s IH]; simpl; [reflexivity | now rewrite IH].
Qed.

Lemma substring_whole (s : string) : substring 0 (String.length s) s = s.
Proof.
  induction s as [|c s IH]; simpl; [reflexivity | now rewrite IH].
Qed.

Lemma substring_prefix (s t : string) :
  substring 0 (String.length s) (s ++ t) = s.
Proof.
  induction s as [|c s IH]; simpl.
  - now destruct t.
  - now rewrite IH.
Qed.

Lemma substring_suffix (s t : string) :
  substring (String.length s) (String.length t) (s ++ t) = t.
Proof.
  induction s as [|c s IH]; simpl; [apply substring_whole | exact IH].
Qed.

(** A string ends with any suffix of its own length class: with [v] as
    long as [w], [u ++ v] ends with [w] exactly when [v] is [w]. *)
Lemma HasSuffix_app (u v w : string) :
  String.length v = String.length w ->
  strings.HasSuffix (u ++ v) w = String.eqb v w.
Proof.
  intros Hlen. unfold strings.HasSuffix.
  rewrite length_app, <- Hlen.
  replace (String.length u + String.length v - String.length v)%nat
    with (String.length u) by lia.
  rewrite substring_suffix.
  replace (String.length v <=? String.length u + String.length v)%nat with true
    by (symmetry; apply Nat.leb_le; lia).
  reflexivity.
Qed.

Lemma TrimSuffix_hit (u w : string) : strings.TrimSuffix (u ++ w) w = u.
Proof.
  unfold strings.TrimSuffix.
  rewrite HasSuffix_app, String.eqb_refl by reflexivity.
  rewrite length_app.
  replace (String.length u + String.length w - String.length w)%nat
    with (String.length u) by lia.
  apply substring_prefix.
Qed.

Lemma TrimSuffix_miss (u v w : string) :
  String.length v = String.length w -> String.eqb v w = false ->
  strings.TrimSuffix (u ++ v) w = u ++ v.
Proof.
  intros Hlen Hne. unfold strings.TrimSuffix.
  now rewrite HasSuffix_app, Hne.
Qed.

Lemma eqb_cons (x y : byte) (s t : string) :
  String.eqb (String x s) (String y t) = Ascii.eqb x y && String.eqb s t.
Proof. simpl. destruct (Ascii.eqb x y); reflexivity. Qed.

End StringFacts.

(** The three [TrimSuffix] steps on a text that ends with a dot and nine
    bytes: the fraction is cut to six, three or no bytes, and only by
    whole groups of three zeros. *)
Lemma trimFraction_nine (p : string) (a0 a1 a2 b0 b1 b2 c0 c1 c2 : byte) :
  let a := String a0 (String a1 (String a2 "")) in
  let b := String b0 (String b1 (String b2 "")) in
  let c := String c0 (String c1 (String c2 "")) in
  trimFraction (p ++ "." ++ a ++ b ++ c) =
    if String.eqb c "000" then
      if String.eqb b "000" then
        if String.eqb a "000" then p else p ++ "." ++ a
      else p ++ "." ++ a ++ b
    else p ++ "." ++ a ++ b ++ c.
Proof.
  intros a b c. unfold trimFraction.
  destruct (String.eqb c "000") eqn:Hc.
  - apply String.eqb_eq in Hc. rewrite Hc.
    replace (p ++ "." ++ a ++ b ++ "000") with ((p ++ "." ++ a ++ b) ++ "000")
      by (now rewrite !app_assoc_string).
    rewrite TrimSuffix_hit.
    destruct (String.eqb b "000") eqn:Hb.
    + apply String.eqb_eq in Hb. rewrite Hb.
      replace (p ++ "." ++ a ++ "000") with ((p ++ "." ++ a) ++ "000")
        by (now rewrite !app_assoc_string).
      rewrite TrimSuffix_hit.
      destruct (String.eqb a "000") eqn:Ha.
      * apply String.eqb_eq in Ha. rewrite Ha. apply TrimSuffix_hit.
      * change (p ++ "." ++ a) with (p ++ String "."%char a).
        apply TrimSuffix_miss; [reflexivity|].
        now rewrite eqb_cons, Ha, andb_false_r.
    + replace (p ++ "." ++ a ++ b) with ((p ++ "." ++ a) ++ b)
        by (now rewrite !app_assoc_string).
      rewrite TrimSuffix_miss by (assumption || reflexivity).
      replace ((p ++ "." ++ a) ++ b)
        with ((p ++ "." ++ String a0 (String a1 "")) ++ String a2 b)
        by (subst a; now rewrite !app_assoc_string).
      apply TrimSuffix_miss; [reflexivity|].
      now rewrite eqb_cons, Hb, andb_false_r.
  - replace (p ++ "." ++ a ++ b ++ c) with ((p ++ "." ++ a ++ b) ++ c)
      by (now rewrite !app_assoc_string).
    rewrite !TrimSuffix_miss by (assumption || reflexivity).
    replace ((p ++ "." ++ a ++ b) ++ c)
      with ((p ++ "." ++ a ++ String b0 (String b1 "")) ++ String b2 c)
      by (subst a b; now rewrite !app_assoc_string).
    apply TrimSuffix_miss; [reflexivity|].
    now rewrite eqb_cons, Hc, andb_false_r.
Qed.

(** ** Decimal formatting *)

Lemma digit_is_digit (d : Z) : 0 <= d <= 9 -> strs.isASCIIDigit (fmt.digit d) = true.
Proof.
  intros H.
  assert (d = 0 \/ d = 1 \/ d = 2 \/ d = 3 \/ d = 4 \/ d = 5 \/ d = 6
          \/ d = 7 \/ d = 8 \/ d = 9) as Hd by lia.
  repeat (destruct Hd as [-> | Hd]; [reflexivity|]). now subst.
Qed.

Lemma all_digits_app (s t : string) :
  all_digits (s ++ t) = all_digits s && all_digits t.
Proof.
  induction s as [|c s IH]; simpl; [reflexivity|].
  now rewrite IH, andb_assoc.
Qed.

Lemma formatBits_digits (fuel : nat) : forall (u : Z) (acc : string),
  0 <= u -> all_digits acc = true -> all_digits (fmt.formatBits fuel u acc) = true.
Proof.
  induction fuel as [|fuel IH]; intros u acc Hu Hacc; simpl.
  - rewrite digit_is_digit by (pose proof (Z.mod_pos_bound u 10); lia). exact Hacc.
  - destruct (10 <=? u) eqn:Hlt.
    + apply IH.
      * apply Z.div_pos; lia.
      * simpl. rewrite digit_is_digit by (pose proof (Z.mod_pos_bound u 10); lia). exact Hacc.
    + apply Z.leb_gt in Hlt. simpl. rewrite digit_is_digit by lia. exact Hacc.
Qed.

(** [formatBits] writes at least one digit, and no more than the bound
    on [u] allows. *)
Lemma formatBits_length (fuel : nat) : forall (u : Z) (acc : string) (k : nat),
  0 <= u < 10 ^ Z.of_nat (S k) ->
  (S (String.length acc) <= String.length (fmt.formatBits fuel u acc)
   <= S k + String.length acc)%nat.
Proof.
  induction fuel as [|fuel IH]; intros u acc k Hu; simpl.
  - lia.
  - destruct (10 <=? u) eqn:Hlt.
    + apply Z.leb_le in Hlt.
      destruct k as [|k].
      { change (10 ^ Z.of_nat 1) with 10 in Hu. lia. }
      assert (0 <= u / 10 < 10 ^ Z.of_nat (S k)) as Hq.
      { split; [apply Z.div_pos; lia|].
        apply Z.div_lt_upper_bound; [lia|].
        replace (Z.of_nat (S (S k))) with (Z.succ (Z.of_nat (S k))) in Hu by lia.
        rewrite Z.pow_succ_r in Hu by lia. lia. }
      specialize (IH (u / 10) (String (fmt.digit (u mod 10)) acc) k Hq).
      simpl in IH. lia.
    + simpl. lia.
Qed.

Lemma FormatUint_digits (u : Z) : 0 <= u -> all_digits (fmt.FormatUint u) = true.
Proof. intros. now apply formatBits_digits. Qed.

Lemma FormatUint_nonempty (u : Z) : 0 <= u -> fmt.FormatUint u <> "".
Proof.
  intros Hu Hempty.
  assert (0 <= u < 10 ^ Z.of_nat (S (Z.to_nat u))) as Hb.
  { split; [exact Hu|].
    assert (u < 2 ^ Z.of_nat (S (Z.to_nat u))).
    { replace (Z.of_nat (S (Z.to_nat u))) with (Z.succ u) by lia.
      pose proof (Z.pow_gt_lin_r 2 (Z.succ u)). lia. }
    assert (2 ^ Z.of_nat (S (Z.to_nat u)) <= 10 ^ Z.of_nat (S (Z.to_nat u))).
    { apply Z.pow_le_mono_l. lia. }
    lia. }
  pose proof (formatBits_length 19 u "" _ Hb) as [Hlo _].
  unfold fmt.FormatUint in Hempty. rewrite Hempty in Hlo.
  change (String.length "") with 0%nat in Hlo. lia.
Qed.

Lemma zeros_digits (n : nat) : all_digits (fmt.zeros n) = true.
Proof. induction n; simpl; [reflexivity | exact IHn]. Qed.

Lemma zeros_length (n : nat) : String.length (fmt.zeros n) = n.
Proof. induction n; simpl; [reflexivity | now rewrite IHn]. Qed.

Lemma padZeros_digits (w : nat) (s : string) :
  all_digits s = true -> all_digits (fmt.padZeros w s) = true.
Proof.
  intros H. unfold fmt.padZeros. now rewrite all_digits_app, zeros_digits, H.
Qed.

Lemma padZeros_length (w : nat) (s : string) :
  (String.length s <= w)%nat -> String.length (fmt.padZeros w s) = w.
Proof.
  intros H. unfold fmt.padZeros. rewrite length_app, zeros_length. lia.
Qed.

(** A number below [10 ^ w] fills a field of [w] digits exactly. *)
Lemma padded_field (w : nat) (u : Z) :
  0 <= u < 10 ^ Z.of_nat (S w) ->
  String.length (fmt.padZeros (S w) (fmt.FormatUint u)) = S w
  /\ all_digits (fmt.padZeros (S w) (fmt.FormatUint u)) = true.
Proof.
  intros Hu. split.
  - apply padZeros_length.
    pose proof (formatBits_length 19 u "" w Hu) as [_ Hhi].
    change (String.length "") with 0%nat in Hhi. unfold fmt.FormatUint. lia.
  - apply padZeros_digits, FormatUint_digits. lia.
Qed.

(** [%d] of a number that is not negative: digits, and at least one. *)
Lemma Sprintf_d_digits (z : Z) :
  0 <= z -> all_digits (fmt.Sprintf_d z) = true /\ fmt.Sprintf_d z <> "".
Proof.
  intros Hz. unfold fmt.Sprintf_d.
  replace (z <? 0) with false by (symmetry; apply Z.ltb_ge; lia).
  split; [now apply FormatUint_digits | now apply FormatUint_nonempty].
Qed.

Lemma length_two (s : string) :
  String.length s = 2%nat -> exists a b, s = String a (String b "").
Proof.
  destruct s as [|a [|b [|c s]]]; simpl; try discriminate. eauto.
Qed.

Lemma length_three (s : string) :
  String.length s = 3%nat -> exists a b c, s = String a (String b (String c "")).
Proof.
  destruct s as [|a [|b [|c [|d s]]]]; simpl; try discriminate. eauto.
Qed.

Lemma length_nine (s : string) :
  String.length s = 9%nat ->
  exists a b c,
    s = a ++ b ++ c /\ String.length a = 3%nat /\ String.length b = 3%nat
    /\ String.length c = 3%nat.
Proof.
  destruct s as [|a0 [|a1 [|a2 [|b0 [|b1 [|b2 [|c0 [|c1 [|c2 [|d s]]]]]]]]]];
    simpl; try discriminate.
  intros _.
  exists (String a0 (String a1 (String a2 ""))),
         (String b0 (String b1 (String b2 ""))),
         (String c0 (String c1 (String c2 ""))).
  repeat split.
Qed.

(** [formatBits] writes the number: read back, its digits give [u], as
    long as [u] has no more digits than the rounds allow, which holds
    for every [int64] in [FormatUint]. *)
Lemma digit_value (d : Z) : 0 <= d <= 9 -> byte_val (fmt.digit d) - byte_val "0" = d.
Proof.
  intros H.
  assert (d = 0 \/ d = 1 \/ d = 2 \/ d = 3 \/ d = 4 \/ d = 5 \/ d = 6
          \/ d = 7 \/ d = 8 \/ d = 9) as Hd by lia.
  repeat (destruct Hd as [-> | Hd]; [reflexivity|]). now subst.
Qed.

Lemma formatBits_value (fuel : nat) : forall (u : Z) (acc : string),
  0 <= u < 10 ^ Z.of_nat (S fuel) ->
  digits_value 0 (fmt.formatBits fuel u acc) = digits_value u acc.
Proof.
  induction fuel as [|fuel IH]; intros u acc Hu.
  - change (10 ^ Z.of_nat 1) with 10 in Hu.
    cbn [fmt.formatBits digits_value].
    rewrite Z.mod_small by lia. rewrite digit_value by lia.
    now replace (0 * 10 + u) with u by lia.
  - cbn [fmt.formatBits].
    destruct (10 <=? u) eqn:Hlt.
    + apply Z.leb_le in Hlt.
      rewrite IH.
      * cbn [digits_value].
        rewrite digit_value by (pose proof (Z.mod_pos_bound u 10); lia).
        f_equal. Z.div_mod_to_equations; lia.
      * replace (Z.of_nat (S (S fuel))) with (Z.succ (Z.of_nat (S fuel))) in Hu by lia.
        rewrite Z.pow_succ_r in Hu by lia.
        Z.div_mod_to_equations; lia.
    + apply Z.leb_gt in Hlt. cbn [digits_value].
      rewrite digit_value by lia.
      now replace (0 * 10 + u) with u by lia.
Qed.

Lemma FormatUint_value (u : Z) :
  0 <= u < 2 ^ 64 -> digits_value 0 (fmt.FormatUint u) = u.
Proof.
  intros Hu. unfold fmt.FormatUint.
  rewrite formatBits_value; [reflexivity|].
  change (10 ^ Z.of_nat 20) with 100000000000000000000.
  change (2 ^ 64) with 18446744073709551616 in Hu. lia.
Qed.

(** ** Regular expressions: the matcher decides the language *)

Section RegexpFacts.

Import regexp.

Lemma matches_empty_nullable (r : regex) (s : string) :
  matches r s -> s = "" -> nullable r = true.
Proof.
  induction 1 as [ | p c Hp | r1 r2 s1 s2 H1 IH1 H2 IH2 | r1 r2 s H IH
                 | r1 r2 s H IH | r | r s1 s2 H1 IH1 H2 IH2 ];
    intros Hs; simpl; try reflexivity; try discriminate.
  - destruct s1; [|discriminate]. simpl in Hs.
    now rewrite IH1, IH2.
  - now rewrite IH.
  - rewrite IH by assumption. apply orb_true_r.
Qed.

Lemma nullable_matches_empty (r : regex) : nullable r = true -> matches r "".
Proof.
  induction r as [ | | p | r1 IH1 r2 IH2 | r1 IH1 r2 IH2 | r IH ]; simpl; intros H;
    try discriminate.
  - constructor.
  - apply andb_prop in H as [H1 H2].
    change "" with ("" ++ ""). constructor; auto.
  - apply orb_prop in H as [H | H]; [apply MAltL | apply MAltR]; auto.
  - constructor.
Qed.

Lemma matches_deriv (r : regex) (w : string) :
  matches r w -> forall c s, w = String c s -> matches (deriv c r) s.
Proof.
  induction 1 as [ | p c0 Hp | r1 r2 s1 s2 H1 IH1 H2 IH2 | r1 r2 s0 H IH
                 | r1 r2 s0 H IH | r | r s1 s2 H1 IH1 H2 IH2 ];
    intros c s Hw; simpl; try discriminate.
  - injection Hw as -> <-. rewrite Hp. constructor.
  - destruct s1 as [|c1 s1].
    + simpl in Hw. rewrite (@matches_empty_nullable _ _ H1 eq_refl).
      apply MAltR. now apply IH2.
    + simpl in Hw. injection Hw as -> <-.
      destruct (nullable r1).
      * apply MAltL. constructor; [now apply IH1 | assumption].
      * constructor; [now apply IH1 | assumption].
  - apply MAltL. now apply IH.
  - apply MAltR. now apply IH.
  - destruct s1 as [|c1 s1].
    + simpl in Hw. now apply IH2.
    + simpl in Hw. injection Hw as -> <-.
      constructor; [now apply IH1 | assumption].
Qed.

Lemma deriv_matches (r : regex) : forall (c : byte) (s : string),
  matches (deriv c r) s -> matches r (String c s).
Proof.
  induction r as [ | | p | r1 IH1 r2 IH2 | r1 IH1 r2 IH2 | r IH ]; simpl; intros c s H.
  - inversion H.
  - inversion H.
  - destruct (p c) eqn:Hp; inversion H; subst. now constructor.
  - assert (forall t, matches (Cat (deriv c r1) r2) t -> matches (Cat r1 r2) (String c t))
      as Hcat.
    { intros t Ht. inversion Ht as [ | | ? ? t1 t2 Ht1 Ht2 | | | | ]; subst.
      change (String c (t1 ++ t2)) with (String c t1 ++ t2).
      constructor; [now apply IH1 | assumption]. }
    destruct (nullable r1) eqn:Hn.
    + inversion H as [ | | | ? ? ? Hl | ? ? ? Hr | | ]; subst.
      * now apply Hcat.
      * change (String c s) with ("" ++ String c s).
        constructor; [now apply nullable_matches_empty | now apply IH2].
    + now apply Hcat.
  - inversion H; subst; [apply MAltL; now apply IH1 | apply MAltR; now apply IH2].
  - inversion H as [ | | ? ? t1 t2 Ht1 Ht2 | | | | ]; subst.
    change (String c (t1 ++ t2)) with (String c t1 ++ t2).
    constructor; [now apply IH | assumption].
Qed.

(** [MatchString] accepts exactly the language of the expression. *)
Theorem MatchString_matches (s : string) : forall r : regex,
  MatchString r s = true <-> matches r s.
Proof.
  induction s as [|c s IH]; intros r; simpl.
  - split; [apply nullable_matches_empty | intros H; now apply (@matches_empty_nullable _ _ H)].
  - rewrite IH. split; [apply deriv_matches | intros H; now apply (@matches_deriv _ _ H)].
Qed.

Lemma matches_Chr (c : byte) : matches (Chr c) (String c "").
Proof. constructor. apply Ascii.eqb_refl. Qed.

Lemma matches_Opt_none (r : regex) : matches (Opt r) "".
Proof. apply MAltL. constructor. Qed.

Lemma matches_Opt_some (r : regex) (s : string) : matches r s -> matches (Opt r) s.
Proof. intros. now apply MAltR. Qed.

Lemma matches_digits_star (s : string) :
  all_digits s = true -> matches (Star digit) s.
Proof.
  induction s as [|c s IH]; simpl; intros H.
  - constructor.
  - apply andb_prop in H as [Hc Hs].
    change (String c s) with (String c "" ++ s).
    constructor; [now constructor | auto].
Qed.

Lemma matches_digits_plus (s : string) :
  all_digits s = true -> s <> "" -> matches (Plus digit) s.
Proof.
  destruct s as [|c s]; [congruence|]. simpl. intros H _.
  apply andb_prop in H as [Hc Hs].
  change (String c s) with (String c "" ++ s).
  constructor; [now constructor | now apply matches_digits_star].
Qed.

Lemma matches_digits_rep (s : string) :
  all_digits s = true -> matches (Rep (String.length s) digit) s.
Proof.
  induction s as [|c s IH]; simpl; intros H.
  - constructor.
  - apply andb_prop in H as [Hc Hs].
    change (String c s) with (String c "" ++ s).
    constructor; [now constructor | auto].
Qed.

(** A dot and three, six or nine digits, or nothing, is a fraction. *)
Lemma matches_fraction_empty : matches fraction "".
Proof. apply matches_Opt_none. Qed.

Lemma matches_fraction_digits (f : string) :
  all_digits f = true ->
  String.length f = 3%nat \/ String.length f = 6%nat \/ String.length f = 9%nat ->
  matches fraction ("." ++ f).
Proof.
  intros Hd Hlen. apply matches_Opt_some.
  pose proof (matches_digits_rep f Hd) as Hrep.
  destruct Hlen as [Hl | [Hl | Hl]]; rewrite Hl in Hrep.
  - apply MAltL. constructor; [apply matches_Chr | exact Hrep].
  - apply MAltR, MAltL. constructor; [apply matches_Chr | exact Hrep].
  - apply MAltR, MAltR. constructor; [apply matches_Chr | exact Hrep].
Qed.

End RegexpFacts.

Example duration_text_examples :
  map (regexp.MatchString regexp.duration_text)
      ["0s"; "1.500s"; "-1.500s"; "3.000001s"; "-0.000000005s";
       "1.5s"; "1.s"; "s"; "-s"; "1.1234s"; "1.500"; "--1s"; "1.500s "]
  = [true; true; true; true; true;
     false; false; false; false; false; false; false; false].
Proof. reflexivity. Qed.

Example timestamp_text_examples :
  map (regexp.MatchString regexp.timestamp_text)
      ["2023-08-29T00:00:00Z"; "2000-02-29T00:00:00.120Z";
       "2023-08-29T00:00:00+01:00"; "2023-08-29T00:00:00.1Z"; "2023-08-29T00:00:00"]
  = [true; true; false; false; false].
Proof. reflexivity. Qed.

(** ** Duration *)

Lemma wrap64_small (z : Z) : - 2 ^ 63 <= z < 2 ^ 63 -> wrap64 z = z.
Proof.
  intros H. unfold wrap64.
  rewrite Z.mod_small; lia.
Qed.

(** The text of a fraction-trimmed decimal: [p], the digits before the
    dot, stay; the nine digits after it are cut to 9, 6, 3 or 0. *)
Lemma trimFraction_shape (p f : string) :
  String.length f = 9%nat -> all_digits f = true ->
  exists frac : string,
    trimFraction (p ++ "." ++ f) = p ++ frac
    /\ regexp.matches regexp.fraction frac.
Proof.
  intros Hlen Hdig.
  destruct (length_nine f Hlen) as (a & b & c & -> & Ha & Hb & Hc).
  rewrite !all_digits_app in Hdig.
  apply andb_prop in Hdig as [Hda Hdig]. apply andb_prop in Hdig as [Hdb Hdc].
  destruct (length_three a Ha) as (a0 & a1 & a2 & Ea).
  destruct (length_three b Hb) as (b0 & b1 & b2 & Eb).
  destruct (length_three c Hc) as (c0 & c1 & c2 & Ec).
  pose proof (trimFraction_nine p a0 a1 a2 b0 b1 b2 c0 c1 c2) as Ht.
  cbv zeta in Ht. rewrite <- Ea, <- Eb, <- Ec in Ht. rewrite Ht.
  destruct (String.eqb c "000"); [destruct (String.eqb b "000");
    [destruct (String.eqb a "000")|]|].
  - exists "". split; [now rewrite app_empty_r | apply matches_fraction_empty].
  - exists ("." ++ a). split; [reflexivity|].
    apply matches_fraction_digits; [assumption | now left].
  - exists ("." ++ a ++ b). split; [reflexivity|].
    apply matches_fraction_digits.
    + now rewrite all_digits_app, Hda, Hdb.
    + right; left. rewrite length_app. lia.
  - exists ("." ++ a ++ b ++ c). split; [reflexivity|].
    apply matches_fraction_digits.
    + now rewrite !all_digits_app, Hda, Hdb, Hdc.
    + right; right. rewrite !length_app. lia.
Qed.

(** The text [marshalDuration] writes for the magnitudes [secs] and
    [nanos] under the sign [sign]. *)
Lemma duration_text_matches (sign : string) (secs nanos : Z) :
  sign = "" \/ sign = "-" ->
  0 <= secs -> 0 <= nanos <= 999999999 ->
  regexp.MatchString regexp.duration_text
    (trimFraction (sign ++ fmt.Sprintf_d secs ++ "." ++ fmt.Sprintf_09d nanos) ++ "s")
  = true.
Proof.
  intros Hsign Hsecs Hnanos.
  apply MatchString_matches.
  destruct (Sprintf_d_digits secs Hsecs) as [Hd Hne].
  assert (0 <= nanos < 10 ^ Z.of_nat 9) as Hn9 by (change (10 ^ Z.of_nat 9) with 1000000000; lia).
  destruct (padded_field 8 nanos Hn9) as [Hlen Hdig].
  unfold fmt.Sprintf_09d.
  replace (nanos <? 0) with false by (symmetry; apply Z.ltb_ge; lia).
  rewrite <- app_assoc_string.
  destruct (trimFraction_shape (sign ++ fmt.Sprintf_d secs) _ Hlen Hdig)
    as (frac & -> & Hfrac).
  rewrite !app_assoc_string.
  unfold regexp.duration_text.
  constructor.
  - destruct Hsign as [-> | ->];
      [apply matches_Opt_none | apply matches_Opt_some, matches_Chr].
  - constructor; [now apply matches_digits_plus|].
    constructor; [assumption | apply matches_Chr].
Qed.

Lemma Duration_Get_seconds (secs nanos : Z) :
  Get (Duration_message secs nanos) genid.Duration_Seconds_field_number
  = ValueOfInt64 secs.
Proof. reflexivity. Qed.

Lemma Duration_Get_nanos (secs nanos : Z) :
  Get (Duration_message secs nanos) genid.Duration_Nanos_field_number
  = ValueOfInt32 nanos.
Proof. reflexivity. Qed.

(** What [marshalDuration] does with a Duration that passes its three
    checks. *)
Lemma marshalDuration_valid (e : encoder) (secs nanos : Z) :
  - maxSecondsInDuration <= secs <= maxSecondsInDuration ->
  - secondsInNanos <= nanos <= secondsInNanos ->
  (0 <= secs /\ 0 <= nanos) \/ (secs <= 0 /\ nanos <= 0) ->
  marshalDuration e (Duration_message secs nanos) =
    (write e (String_
       (trimFraction
          ((if (secs <? 0) || (nanos <? 0) then "-" else "")
           ++ fmt.Sprintf_d (Z.abs secs) ++ "." ++ fmt.Sprintf_09d (Z.abs nanos))
        ++ "s")),
     Return None).
Proof.
  unfold maxSecondsInDuration, secondsInNanos. intros Hs Hn Hsign.
  unfold marshalDuration. cbv zeta.
  rewrite Duration_Get_seconds, Duration_Get_nanos. cbn [Value_Int].
  unfold maxSecondsInDuration, secondsInNanos.
  repeat match goal with
         | |- context [Z.ltb ?a ?b] => destruct (Z.ltb_spec a b); try lia
         end;
    cbn [orb andb]; cbv iota beta;
    rewrite ?wrap64_small by lia;
    repeat match goal with
           | |- context [-1 * ?z] => replace (-1 * z) with (Z.abs z) by lia
           end;
    rewrite ?(Z.abs_eq secs), ?(Z.abs_eq nanos) by lia;
    reflexivity.
Qed.

(** C1: a Duration within the declared invariants is encoded without
    error, and the text written matches
    [^-?[0-9]+(\.[0-9]{3}|\.[0-9]{6}|\.[0-9]{9})?s$]: the three
    [TrimSuffix] steps leave 0, 3, 6 or 9 fractional digits.  In
    particular (1, 500000000) gives "1.500s", (0, 0) gives "0s" and
    (-1, -500000000) gives "-1.500s". *)
Theorem marshalDuration_text (e : encoder) :
  (forall secs nanos : Z,
      - 315576000000 <= secs <= 315576000000 ->
      - 999999999 <= nanos <= 999999999 ->
      (0 <= secs /\ 0 <= nanos) \/ (secs <= 0 /\ nanos <= 0) ->
      exists x : string,
        marshalDuration e (Duration_message secs nanos)
          = (write e (String_ x), Return None)
        /\ regexp.MatchString regexp.duration_text x = true)
  /\ marshalDuration e (Duration_message 1 500000000)
       = (write e (String_ "1.500s"), Return None)
  /\ marshalDuration e (Duration_message 0 0)
       = (write e (String_ "0s"), Return None)
  /\ marshalDuration e (Duration_message (-1) (-500000000))
       = (write e (String_ "-1.500s"), Return None).
Proof.
  split; [|repeat split; reflexivity].
  intros secs nanos Hs Hn Hsign.
  eexists. split.
  - apply marshalDuration_valid; assumption.
  - apply duration_text_matches.
    + destruct ((secs <? 0) || (nanos <? 0)); auto.
    + lia.
    + lia.
Qed.

Lemma marshalDuration_text_witness :
  exists x : string,
    marshalDuration empty_encoder
      (Duration_message 3 1000)
    = (write empty_encoder
         (String_ x), Return None)
    /\ regexp.MatchString regexp.duration_text x = true.
Proof.
  apply (proj1 (marshalDuration_text _) 3 1000); lia.
Defined.

Example marshalDuration_fractions (e : encoder) :
  marshalDuration e (Duration_message 3 1000)
    = (write e (String_ "3.000001s"), Return None)
  /\ marshalDuration e (Duration_message 0 (-5))
     = (write e (String_ "-0.000000005s"), Return None)
  /\ marshalDuration e (Duration_message (-315576000000) (-999999999))
     = (write e (String_ "-315576000000.999999999s"), Return None)
  /\ marshalDuration e (Duration_message 10 100000)
     = (write e (String_ "10.000100s"), Return None)
  /\ marshalDuration e (Duration_message 1000 0)
     = (write e (String_ "1000s"), Return None).
Proof. repeat split. Qed.

(** C5: [marshalDuration] returns an error exactly when seconds or nanos
    are out of range or their signs strictly conflict; the error leaves
    the output as it was.  Seconds 315576000001 give the range error,
    which names the field and the value; (1, -1) gives the sign error. *)
Theorem marshalDuration_error_iff (e : encoder) (secs nanos : Z) :
  ((exists err, snd (marshalDuration e (Duration_message secs nanos))
                = Return (Some err))
   <-> (secs < - 315576000000 \/ 315576000000 < secs
        \/ nanos < - 999999999 \/ 999999999 < nanos
        \/ (0 < secs /\ nanos < 0) \/ (secs < 0 /\ 0 < nanos)))
  /\ (forall err, snd (marshalDuration e (Duration_message secs nanos))
                  = Return (Some err) ->
                  fst (marshalDuration e (Duration_message secs nanos)) = e)
  /\ marshalDuration e (Duration_message 315576000001 nanos)
     = (e, Return (Some (errors.New "%s: seconds out of range %v"
                           [errors.ArgString "google.protobuf.Duration";
                            errors.ArgInt 315576000001])))
  /\ marshalDuration e (Duration_message 1 (-1))
     = (e, Return (Some (errors.New "%s: signs of seconds and nanos do not match"
                           [errors.ArgString "google.protobuf.Duration"]))).
Proof.
  assert (Hvalid :
    - 315576000000 <= secs <= 315576000000 ->
    - 999999999 <= nanos <= 999999999 ->
    (0 <= secs /\ 0 <= nanos) \/ (secs <= 0 /\ nanos <= 0) ->
    snd (marshalDuration e (Duration_message secs nanos)) = Return None).
  { intros Hs Hn Hsg. now rewrite marshalDuration_valid. }
  assert (Hinvalid :
    (secs < - 315576000000 \/ 315576000000 < secs
     \/ nanos < - 999999999 \/ 999999999 < nanos
     \/ (0 < secs /\ nanos < 0) \/ (secs < 0 /\ 0 < nanos)) ->
    exists err, marshalDuration e (Duration_message secs nanos)
                = (e, Return (Some err))).
  { intros Hc. unfold marshalDuration. cbv zeta.
    rewrite Duration_Get_seconds, Duration_Get_nanos. cbn [Value_Int].
    unfold maxSecondsInDuration, secondsInNanos.
    repeat match goal with
           | |- context [Z.ltb ?a ?b] => destruct (Z.ltb_spec a b); try lia
           end;
      cbn [orb andb]; cbv iota beta; eexists; reflexivity. }
  assert (Hdec :
    (secs < - 315576000000 \/ 315576000000 < secs
     \/ nanos < - 999999999 \/ 999999999 < nanos
     \/ (0 < secs /\ nanos < 0) \/ (secs < 0 /\ 0 < nanos))
    \/ (- 315576000000 <= secs <= 315576000000
        /\ - 999999999 <= nanos <= 999999999
        /\ ((0 <= secs /\ 0 <= nanos) \/ (secs <= 0 /\ nanos <= 0)))) by lia.
  split; [split|split; [|split; reflexivity]].
  - intros [err Herr]. destruct Hdec as [Hc | (Hs & Hn & Hsg)]; [exact Hc|].
    rewrite Hvalid in Herr by assumption. discriminate.
  - intros Hc. destruct (Hinvalid Hc) as [err ->]. now exists err.
  - intros err Herr. destruct Hdec as [Hc | (Hs & Hn & Hsg)].
    + now destruct (Hinvalid Hc) as [err' ->].
    + rewrite Hvalid in Herr by assumption. discriminate.
Qed.

Lemma marshalDuration_error_iff_witness :
  (exists err, snd (marshalDuration empty_encoder (Duration_message 1 (-1)))
               = Return (Some err))
  /\ (exists err, snd (marshalDuration empty_encoder (Duration_message 0 1000000000))
                  = Return (Some err))
  /\ fst (marshalDuration empty_encoder (Duration_message (-315576000001) 0))
     = empty_encoder.
Proof.
  split; [|split].
  - apply (proj1 (marshalDuration_error_iff empty_encoder 1 (-1))). lia.
  - apply (proj1 (marshalDuration_error_iff empty_encoder 0 1000000000)). lia.
  - apply (proj1 (proj2 (marshalDuration_error_iff empty_encoder (-315576000001) 0))
             (errors.New "%s: seconds out of range %v"
                [errors.ArgString "google.protobuf.Duration";
                 errors.ArgInt (-315576000001)])).
    reflexivity.
Defined.

(** ** Timestamp *)

(** Within the range of a Timestamp the date has a year of four digits. *)
Lemma Date_bounds (days : Z) :
  -719162 <= days <= 2932896 ->
  let '(y, m, d) := time.Date days in
  1 <= y <= 9999 /\ 1 <= m <= 12 /\ 1 <= d <= 31.
Proof.
  intros H. unfold time.Date.
  set (z := days + 719468).
  set (era := z / 146097).
  set (doe := z - era * 146097).
  assert (0 <= era <= 24) as Hera by (subst era z; Z.div_mod_to_equations; lia).
  assert (0 <= doe <= 146096) as Hdoe
    by (subst doe era; Z.div_mod_to_equations; lia).
  assert (306 <= doe \/ 1 <= era) as Hlow
    by (subst doe era z; Z.div_mod_to_equations; lia).
  assert (era <= 23 \/ doe <= 146036) as Hhigh
    by (subst doe era z; Z.div_mod_to_equations; lia).
  clearbody doe era. clear z H.
  set (yoe := (doe - doe / 1460 + doe / 36524 - doe / 146096) / 365).
  assert (0 <= yoe <= 399) as Hyoe by (subst yoe; Z.div_mod_to_equations; lia).
  set (doy := doe - (365 * yoe + yoe / 4 - yoe / 100)).
  assert (0 <= doy <= 365) as Hdoy by (subst doy yoe; Z.div_mod_to_equations; lia).
  assert (yoe = 0 -> doy = doe) as Hfirst
    by (intros Hy; subst doy; rewrite Hy; change (0 / 4) with 0;
        change (0 / 100) with 0; lia).
  assert (yoe = 399 -> doe <= 146036 -> doy <= 305) as Hlast
    by (intros Hy Hd; subst doy; rewrite Hy; change (399 / 4) with 99;
        change (399 / 100) with 3; lia).
  clearbody doy yoe.
  set (mp := (5 * doy + 2) / 153).
  assert (0 <= mp <= 11) as Hmp by (subst mp; Z.div_mod_to_equations; lia).
  assert (306 <= doy -> 10 <= mp) as Hmp_low
    by (intros; subst mp; Z.div_mod_to_equations; lia).
  assert (doy <= 305 -> mp <= 9) as Hmp_high
    by (intros; subst mp; Z.div_mod_to_equations; lia).
  assert (1 <= doy - (153 * mp + 2) / 5 + 1 <= 31) as Hd
    by (subst mp; Z.div_mod_to_equations; lia).
  clearbody mp.
  destruct (Z.ltb_spec mp 10) as [Hlt | Hge].
  - replace (mp + 3 <=? 2) with false by (symmetry; apply Z.leb_gt; lia).
    split; [|split]; lia.
  - replace (mp - 9 <=? 2) with true by (symmetry; apply Z.leb_le; lia).
    split; [|split]; lia.
Qed.

Lemma appendInt_field (w : nat) (x : Z) :
  0 <= x < 10 ^ Z.of_nat (S w) ->
  String.length (time.appendInt x (S w)) = S w
  /\ all_digits (time.appendInt x (S w)) = true.
Proof.
  intros Hx. unfold time.appendInt.
  replace (x <? 0) with false by (symmetry; apply Z.ltb_ge; lia).
  now apply padded_field.
Qed.

Lemma matches_field (n : nat) (s : string) :
  String.length s = n /\ all_digits s = true ->
  regexp.matches (regexp.Rep n regexp.digit) s.
Proof. intros [<- Hd]. now apply matches_digits_rep. Qed.

(** The text [marshalTimestamp] writes, from the fields of the date. *)
Lemma timestamp_text_matches (Y M D h mi s f : string) :
  String.length Y = 4%nat /\ all_digits Y = true ->
  String.length M = 2%nat /\ all_digits M = true ->
  String.length D = 2%nat /\ all_digits D = true ->
  String.length h = 2%nat /\ all_digits h = true ->
  String.length mi = 2%nat /\ all_digits mi = true ->
  String.length s = 2%nat /\ all_digits s = true ->
  String.length f = 9%nat /\ all_digits f = true ->
  regexp.MatchString regexp.timestamp_text
    (trimFraction (Y ++ "-" ++ M ++ "-" ++ D ++ "T" ++ h ++ ":" ++ mi ++ ":" ++ s
                   ++ "." ++ f) ++ "Z") = true.
Proof.
  intros HY HM HD Hh Hmi Hs [Hlen Hdig].
  apply MatchString_matches.
  replace (Y ++ "-" ++ M ++ "-" ++ D ++ "T" ++ h ++ ":" ++ mi ++ ":" ++ s ++ "." ++ f)
    with ((Y ++ "-" ++ M ++ "-" ++ D ++ "T" ++ h ++ ":" ++ mi ++ ":" ++ s) ++ "." ++ f)
    by (now rewrite !app_assoc_string).
  destruct (trimFraction_shape
              (Y ++ "-" ++ M ++ "-" ++ D ++ "T" ++ h ++ ":" ++ mi ++ ":" ++ s) f Hlen Hdig)
    as (frac & -> & Hfrac).
  rewrite !app_assoc_string.
  unfold regexp.timestamp_text.
  repeat (constructor;
          [first [ now apply matches_field | apply matches_Chr ] | ]).
  constructor; [assumption | apply matches_Chr].
Qed.

Lemma Timestamp_Get_seconds (secs nanos : Z) :
  Get (Timestamp_message secs nanos) genid.Timestamp_Seconds_field_number
  = ValueOfInt64 secs.
Proof. reflexivity. Qed.

Lemma Timestamp_Get_nanos (secs nanos : Z) :
  Get (Timestamp_message secs nanos) genid.Timestamp_Nanos_field_number
  = ValueOfInt32 nanos.
Proof. reflexivity. Qed.

Lemma Unix_normal (secs nanos : Z) :
  0 <= nanos <= 999999999 -> time.Unix secs nanos = time.mkTime secs nanos.
Proof.
  intros H. unfold time.Unix.
  replace (nanos <? 0) with false by (symmetry; apply Z.ltb_ge; lia).
  replace (1000000000 <=? nanos) with false by (symmetry; apply Z.leb_gt; lia).
  reflexivity.
Qed.

Lemma Format_matches (secs nanos : Z) :
  -62135596800 <= secs <= 253402300799 -> 0 <= nanos <= 999999999 ->
  regexp.MatchString regexp.timestamp_text
    (trimFraction (time.Format_2006_01_02T15_04_05_000000000 (time.mkTime secs nanos))
     ++ "Z") = true.
Proof.
  intros Hs Hn. unfold time.Format_2006_01_02T15_04_05_000000000.
  cbn [time.sec time.nsec].
  assert (-719162 <= secs / 86400 <= 2932896) as Hdays
    by (Z.div_mod_to_equations; lia).
  pose proof (Date_bounds (secs / 86400) Hdays) as Hdate.
  destruct (time.Date (secs / 86400)) as [[y m] d].
  destruct Hdate as (Hy & Hm & Hd).
  assert (0 <= secs mod 86400 < 86400) as Hr by (apply Z.mod_pos_bound; lia).
  set (r := secs mod 86400) in *.
  apply timestamp_text_matches.
  - apply (appendInt_field 3). change (10 ^ Z.of_nat 4) with 10000. lia.
  - apply (appendInt_field 1). change (10 ^ Z.of_nat 2) with 100. lia.
  - apply (appendInt_field 1). change (10 ^ Z.of_nat 2) with 100. lia.
  - apply (appendInt_field 1). change (10 ^ Z.of_nat 2) with 100.
    Z.div_mod_to_equations; lia.
  - apply (appendInt_field 1). change (10 ^ Z.of_nat 2) with 100.
    Z.div_mod_to_equations; lia.
  - apply (appendInt_field 1). change (10 ^ Z.of_nat 2) with 100.
    Z.div_mod_to_equations; lia.
  - apply (padded_field 8). change (10 ^ Z.of_nat 9) with 1000000000. lia.
Qed.

Lemma marshalTimestamp_valid (e : encoder) (secs nanos : Z) :
  -62135596800 <= secs <= 253402300799 -> 0 <= nanos <= 999999999 ->
  marshalTimestamp e (Timestamp_message secs nanos)
  = (write e (String_
       (trimFraction
          (time.Format_2006_01_02T15_04_05_000000000 (time.mkTime secs nanos))
        ++ "Z")),
     Return None).
Proof.
  intros Hs Hn.
  unfold marshalTimestamp. cbv zeta.
  rewrite Timestamp_Get_seconds, Timestamp_Get_nanos. cbn [Value_Int].
  unfold minTimestampSeconds, maxTimestampSeconds, secondsInNanos.
  repeat match goal with
         | |- context [Z.ltb ?a ?b] => destruct (Z.ltb_spec a b); try lia
         end.
  cbn [orb]. cbv iota. unfold time.UTC. rewrite Unix_normal by lia.
  unfold WriteString, trimFraction. reflexivity.
Qed.

Lemma marshalTimestamp_invalid (e : encoder) (secs nanos : Z) :
  secs < -62135596800 \/ 253402300799 < secs \/ nanos < 0 \/ 999999999 < nanos ->
  exists err, marshalTimestamp e (Timestamp_message secs nanos)
              = (e, Return (Some err)).
Proof.
  intros Hc. unfold marshalTimestamp. cbv zeta.
  rewrite Timestamp_Get_seconds, Timestamp_Get_nanos. cbn [Value_Int].
  unfold minTimestampSeconds, maxTimestampSeconds, secondsInNanos.
  repeat match goal with
         | |- context [Z.ltb ?a ?b] => destruct (Z.ltb_spec a b); try lia
         end;
    cbn [orb]; cbv iota; eexists; reflexivity.
Qed.

(** C8: a Timestamp with seconds in [-62135596800, 253402300799] and
    nanos in [0, 999999999] is encoded without error; the text is the
    UTC date and time, the fraction trimmed by the rule of the duration
    ([trimFraction]) to 9, 6, 3 or 0 digits, and a final "Z"; it matches
    the contract of the timestamp text.  Outside these ranges the encoder
    returns an error and writes nothing.  Seconds 1693267200 with nanos 0
    give "2023-08-29T00:00:00Z". *)
Theorem marshalTimestamp_text (e : encoder) :
  (forall secs nanos : Z,
      -62135596800 <= secs <= 253402300799 -> 0 <= nanos <= 999999999 ->
      exists x : string,
        marshalTimestamp e (Timestamp_message secs nanos)
          = (write e (String_ (x ++ "Z")), Return None)
        /\ x = trimFraction
                 (time.Format_2006_01_02T15_04_05_000000000 (time.mkTime secs nanos))
        /\ regexp.MatchString regexp.timestamp_text (x ++ "Z") = true)
  /\ (forall secs nanos : Z,
        secs < -62135596800 \/ 253402300799 < secs \/ nanos < 0 \/ 999999999 < nanos ->
        exists err, marshalTimestamp e (Timestamp_message secs nanos)
                    = (e, Return (Some err)))
  /\ marshalTimestamp e (Timestamp_message 1693267200 0)
     = (write e (String_ "2023-08-29T00:00:00Z"), Return None).
Proof.
  split; [|split].
  - intros secs nanos Hs Hn. eexists. split; [|split; [reflexivity|]].
    + now apply marshalTimestamp_valid.
    + now apply Format_matches.
  - intros secs nanos. apply marshalTimestamp_invalid.
  - vm_compute. reflexivity.
Qed.

Lemma marshalTimestamp_text_witness :
  (exists x : string,
      marshalTimestamp empty_encoder (Timestamp_message 951782400 5000)
      = (write empty_encoder (String_ (x ++ "Z")), Return None)
      /\ x = trimFraction
               (time.Format_2006_01_02T15_04_05_000000000 (time.mkTime 951782400 5000))
      /\ regexp.MatchString regexp.timestamp_text (x ++ "Z") = true)
  /\ (exists err, marshalTimestamp empty_encoder (Timestamp_message 253402300800 0)
                  = (empty_encoder, Return (Some err))).
Proof.
  split.
  - apply (proj1 (marshalTimestamp_text empty_encoder) 951782400 5000); lia.
  - apply (proj1 (proj2 (marshalTimestamp_text empty_encoder)) 253402300800 0); lia.
Defined.

Example marshalTimestamp_fractions (e : encoder) :
  marshalTimestamp e (Timestamp_message 951782400 5000)
    = (write e (String_ "2000-02-29T00:00:00.000005Z"), Return None)
  /\ marshalTimestamp e (Timestamp_message 951782400 120000000)
     = (write e (String_ "2000-02-29T00:00:00.120Z"), Return None)
  /\ marshalTimestamp e (Timestamp_message 951782400 1)
     = (write e (String_ "2000-02-29T00:00:00.000000001Z"), Return None)
  /\ marshalTimestamp e (Timestamp_message 951782400 100000)
     = (write e (String_ "2000-02-29T00:00:00.000100Z"), Return None).
Proof. repeat split; vm_compute; reflexivity. Qed.

(** ** The calendar *)

(** [time.Date] inverts the day number of a date: the date it gives for a
    day is a date of that day. *)
Lemma Date_inverse (days : Z) :
  let '(y, m, d) := time.Date days in time.days_from_civil y m d = days.
Proof.
  unfold time.Date, time.days_from_civil.
  set (z := days + 719468).
  set (era := z / 146097).
  set (doe := z - era * 146097).
  assert (0 <= doe <= 146096) as Hdoe
    by (subst doe era; Z.div_mod_to_equations; lia).
  assert (days = era * 146097 + doe - 719468) as Hdays by (subst doe z; lia).
  clearbody doe era. clear z.
  set (yoe := (doe - doe / 1460 + doe / 36524 - doe / 146096) / 365).
  assert (0 <= yoe <= 399) as Hyoe by (subst yoe; Z.div_mod_to_equations; lia).
  set (doy := doe - (365 * yoe + yoe / 4 - yoe / 100)).
  assert (0 <= doy <= 365) as Hdoy by (subst doy yoe; Z.div_mod_to_equations; lia).
  assert (doe = yoe * 365 + yoe / 4 - yoe / 100 + doy) as Hdoe' by (subst doy; lia).
  clearbody doy. clearbody yoe.
  set (mp := (5 * doy + 2) / 153).
  assert (0 <= mp <= 11) as Hmp by (subst mp; Z.div_mod_to_equations; lia).
  assert (doy = (153 * mp + 2) / 5 + (doy - (153 * mp + 2) / 5 + 1) - 1) as Hd by lia.
  clearbody mp.
  destruct (Z.ltb_spec mp 10) as [Hlt | Hge].
  - replace (mp + 3 <=? 2) with false by (symmetry; apply Z.leb_gt; lia).
    replace (2 <? mp + 3) with true by (symmetry; apply Z.ltb_lt; lia).
    replace (mp + 3 - 3) with mp by lia.
    replace (yoe + era * 400 + 0) with (yoe + era * 400) by lia.
    replace ((yoe + era * 400) / 400) with era by (Z.div_mod_to_equations; lia).
    replace (yoe + era * 400 - era * 400) with yoe by lia. lia.
  - replace (mp - 9 <=? 2) with true by (symmetry; apply Z.leb_le; lia).
    replace (2 <? mp - 9) with false by (symmetry; apply Z.ltb_ge; lia).
    replace (mp - 9 + 9) with mp by lia.
    replace (yoe + era * 400 + 1 - 1) with (yoe + era * 400) by lia.
    replace ((yoe + era * 400) / 400) with era by (Z.div_mod_to_equations; lia).
    replace (yoe + era * 400 - era * 400) with yoe by lia. lia.
Qed.

Example Format_examples :
  time.Format_2006_01_02T15_04_05_000000000 (time.Unix 0 0)
    = "1970-01-01T00:00:00.000000000"
  /\ time.Format_2006_01_02T15_04_05_000000000 (time.Unix (-62135596800) 0)
     = "0001-01-01T00:00:00.000000000"
  /\ time.Format_2006_01_02T15_04_05_000000000 (time.Unix 253402300799 999999999)
     = "9999-12-31T23:59:59.999999999"
  /\ time.Format_2006_01_02T15_04_05_000000000 (time.Unix 951782400 5)
     = "2000-02-29T00:00:00.000000005"
  /\ time.Format_2006_01_02T15_04_05_000000000 (time.Unix (-2203891200) 0)
     = "1900-03-01T00:00:00.000000000"
  /\ time.Format_2006_01_02T15_04_05_000000000 (time.Unix (-1) 1000000)
     = "1969-12-31T23:59:59.001000000".
Proof. repeat split; vm_compute; reflexivity. Qed.

(** ** The name converter *)

Lemma upper_of_lower_not_underscore (c : byte) :
  strs.isASCIILower c = true ->
  byte_eqb (byte_sub c (byte_val "a" - byte_val "A")) "_" = false.
Proof.
  destruct c as [[] [] [] [] [] [] [] []]; vm_compute; congruence.
Qed.

(** One round of the loop on a byte that is not an underscore: the byte
    is kept, in upper case if it is a lowercase letter after an
    underscore, and [wasUnderscore] is false again. *)
Lemma JSONCamelCase_loop_byte (w : bool) (c : byte) (s : string) :
  byte_eqb c "_" = false ->
  strs.JSONCamelCase_loop w (String c s)
  = String (if w && strs.isASCIILower c
            then byte_sub c (byte_val "a" - byte_val "A") else c)
           (strs.JSONCamelCase_loop false s).
Proof.
  intros Hc. cbn [strs.JSONCamelCase_loop]. rewrite Hc. cbn [negb].
  destruct (w && strs.isASCIILower c) eqn:Hw.
  - apply andb_prop in Hw as [_ Hl].
    now rewrite (upper_of_lower_not_underscore c Hl).
  - now rewrite Hc.
Qed.

(** One round of the loop on an underscore: nothing is written. *)
Lemma JSONCamelCase_loop_underscore (w : bool) (s : string) :
  strs.JSONCamelCase_loop w (String "_" s) = strs.JSONCamelCase_loop true s.
Proof. reflexivity. Qed.

Lemma JSONCamelCase_loop_no_underscore (s : string) : forall w : bool,
  count_byte "_" (strs.JSONCamelCase_loop w s) = 0%nat.
Proof.
  induction s as [|c s IH]; intros w; [reflexivity|].
  destruct (byte_eqb c "_") eqn:Hc.
  - apply Ascii.eqb_eq in Hc. subst c.
    rewrite JSONCamelCase_loop_underscore. apply IH.
  - rewrite JSONCamelCase_loop_byte by assumption.
    cbn [count_byte]. rewrite IH.
    destruct (w && strs.isASCIILower c) eqn:Hw.
    + apply andb_prop in Hw as [_ Hl].
      now rewrite (upper_of_lower_not_underscore c Hl).
    + now rewrite Hc.
Qed.

Lemma JSONCamelCase_loop_app (a b : string) : forall w : bool,
  strs.JSONCamelCase_loop w (a ++ String "_" b)
  = strs.JSONCamelCase_loop w a ++ strs.JSONCamelCase_loop true b.
Proof.
  induction a as [|c a IH]; intros w; [reflexivity|].
  change (String c a ++ String "_" b) with (String c (a ++ String "_" b)).
  destruct (byte_eqb c "_") eqn:Hc.
  - apply Ascii.eqb_eq in Hc. subst c.
    rewrite !JSONCamelCase_loop_underscore. apply IH.
  - rewrite !JSONCamelCase_loop_byte by assumption.
    rewrite IH. reflexivity.
Qed.

(** C2, as the code has it: [JSONCamelCase] drops every underscore,
    whatever follows it.  Its output has no underscore; a trailing
    underscore is dropped; an underscore before any other byte is
    dropped, and that byte is kept, in upper case when it is a lowercase
    ASCII letter and as it is otherwise. *)
Theorem JSONCamelCase_drops_every_underscore :
  (forall s : string, count_byte "_" (strs.JSONCamelCase s) = 0%nat)
  /\ (forall a : string, strs.JSONCamelCase (a ++ "_") = strs.JSONCamelCase a)
  /\ (forall (a b : string) (c : byte),
        c <> "_"%char ->
        strs.JSONCamelCase (a ++ "_" ++ String c b)
        = strs.JSONCamelCase a
          ++ String (if strs.isASCIILower c
                     then byte_sub c (byte_val "a" - byte_val "A") else c)
                    (strs.JSONCamelCase b)).
Proof.
  unfold strs.JSONCamelCase. split; [|split].
  - intros s. apply JSONCamelCase_loop_no_underscore.
  - intros a. rewrite JSONCamelCase_loop_app. apply app_empty_r.
  - intros a b c Hc.
    change (a ++ "_" ++ String c b) with (a ++ String "_" (String c b)).
    rewrite JSONCamelCase_loop_app.
    rewrite JSONCamelCase_loop_byte by (now apply Ascii.eqb_neq).
    reflexivity.
Qed.

Lemma JSONCamelCase_drops_every_underscore_witness :
  strs.JSONCamelCase ("foo" ++ "_" ++ String "1" "x") = "foo1x"
  /\ strs.JSONCamelCase ("foo" ++ "_" ++ String "b" "ar") = "fooBar".
Proof.
  split.
  - rewrite (proj2 (proj2 JSONCamelCase_drops_every_underscore) "foo" "x" "1"%char).
    + reflexivity.
    + discriminate.
  - rewrite (proj2 (proj2 JSONCamelCase_drops_every_underscore) "foo" "ar" "b"%char).
    + reflexivity.
    + discriminate.
Defined.

(** C2, as the specification words it, fails: the code drops the
    trailing underscore of "foo_" and the underscore before the digit of
    "foo_1", which the specification keeps. *)
Lemma toCamel_spec_counterexample :
  strs.JSONCamelCase "foo_" = "foo" /\ toCamel_spec "foo_" = "foo_"
  /\ strs.JSONCamelCase "foo_1" = "foo1" /\ toCamel_spec "foo_1" = "foo_1"
  /\ ~ (forall s : string, strs.JSONCamelCase s = toCamel_spec s).
Proof.
  repeat split. intros H. specialize (H "foo_"). discriminate H.
Qed.

(** Where every underscore stands before a lowercase letter the two
    agree, as on "foo_bar". *)
Example toCamel_spec_foo_bar :
  toCamel_spec "foo_bar" = "fooBar" /\ strs.JSONCamelCase "foo_bar" = "fooBar".
Proof. split; reflexivity. Qed.

(** ** FieldMask *)

Lemma FieldMask_Get_paths (paths : list string) :
  Get (FieldMask_message paths) genid.FieldMask_Paths_field_number
  = ValueOfList (map ValueOfString paths).
Proof. reflexivity. Qed.

(** The loop stops at the first path that fails a test, with the error
    of that path; otherwise it converts every path. *)
Lemma marshalFieldMask_loop_find (C : Collaborators) (paths : list string) :
  forall acc : list string,
    marshalFieldMask_loop C (map ValueOfString paths) acc
    = match find (fun p => negb (path_ok p)) paths with
      | Some p => inr (path_error p)
      | None => inl (acc ++ map strs.JSONCamelCase paths)%list
      end.
Proof.
  induction paths as [|p paths IH]; intros acc.
  - simpl. now rewrite app_nil_r.
  - cbn [map marshalFieldMask_loop find Value_String].
    unfold path_ok at 1.
    destruct (protoreflect.FullName_IsValid p) eqn:Hv; cbn [negb andb].
    2: { unfold path_error. now rewrite Hv. }
    destruct (String.eqb p (strs.JSONSnakeCase (strs.JSONCamelCase p)));
      cbn [negb].
    2: { unfold path_error. now rewrite Hv. }
    rewrite IH, <- app_assoc. reflexivity.
Qed.

Lemma marshalFieldMask_find (C : Collaborators) (e : encoder) (paths : list string) :
  marshalFieldMask C e (FieldMask_message paths)
  = match find (fun p => negb (path_ok p)) paths with
    | Some p => (e, Return (Some (path_error p)))
    | None =>
        (write e (String_ (strings.Join (map strs.JSONCamelCase paths) ",")),
         Return None)
    end.
Proof.
  unfold marshalFieldMask. cbv zeta.
  rewrite FieldMask_Get_paths. cbn [Value_List].
  rewrite marshalFieldMask_loop_find.
  destruct (find (fun p => negb (path_ok p)) paths); reflexivity.
Qed.

(** C4: when every path is a valid dotted identifier path and converts
    back from camelCase to itself, [marshalFieldMask] writes the
    camelCase paths joined by ","; when a path fails one of the two
    tests, it returns an error that names a failing path (the first one)
    and writes nothing.  ["foo_bar"] gives "fooBar"; ["foo__bar"] is
    rejected as irreversible. *)
Theorem marshalFieldMask_paths (C : Collaborators) (e : encoder) :
  (forall paths : list string,
      (forall p, In p paths -> path_ok p = true) ->
      marshalFieldMask C e (FieldMask_message paths)
      = (write e (String_ (strings.Join (map strs.JSONCamelCase paths) ",")),
         Return None))
  /\ (forall (paths : list string) (q : string),
        In q paths -> path_ok q = false ->
        exists p, In p paths /\ path_ok p = false
                  /\ marshalFieldMask C e (FieldMask_message paths)
                     = (e, Return (Some (path_error p))))
  /\ marshalFieldMask C e (FieldMask_message ["foo_bar"])
     = (write e (String_ "fooBar"), Return None)
  /\ marshalFieldMask C e (FieldMask_message ["foo__bar"])
     = (e, Return (Some (errors.New "%s contains irreversible value %q"
                           [errors.ArgString "google.protobuf.FieldMask.paths";
                            errors.ArgString "foo__bar"]))).
Proof.
  split; [|split; [|split]].
  - intros paths Hall. rewrite marshalFieldMask_find.
    destruct (find (fun p => negb (path_ok p)) paths) as [p|] eqn:Hfind;
      [|reflexivity].
    apply find_some in Hfind as [Hin Hbad].
    rewrite (Hall p Hin) in Hbad. discriminate.
  - intros paths q Hin Hbad. rewrite marshalFieldMask_find.
    destruct (find (fun p => negb (path_ok p)) paths) as [p|] eqn:Hfind.
    + apply find_some in Hfind as [Hp Hpbad].
      exists p. repeat split; [assumption|].
      now apply negb_true_iff in Hpbad.
    + apply (find_none _ _ Hfind) in Hin. rewrite Hbad in Hin. discriminate.
  - rewrite marshalFieldMask_find. reflexivity.
  - rewrite marshalFieldMask_find. reflexivity.
Qed.

Lemma marshalFieldMask_paths_witness :
  marshalFieldMask naming_collaborators empty_encoder
    (FieldMask_message ["user.display_name"; "photo"])
  = (write empty_encoder
       (String_ (strings.Join (map strs.JSONCamelCase ["user.display_name"; "photo"]) ",")),
     Return None)
  /\ exists p, In p ["photo"; "a__b"; "c-d"] /\ path_ok p = false
               /\ marshalFieldMask naming_collaborators empty_encoder
                    (FieldMask_message ["photo"; "a__b"; "c-d"])
                  = (empty_encoder, Return (Some (path_error p))).
Proof.
  split.
  - apply (proj1 (marshalFieldMask_paths naming_collaborators empty_encoder)
             ["user.display_name"; "photo"]).
    intros p [<- | [<- | []]]; reflexivity.
  - apply (proj1 (proj2 (marshalFieldMask_paths naming_collaborators empty_encoder))
             ["photo"; "a__b"; "c-d"] "c-d").
    + right; right; left; reflexivity.
    + reflexivity.
Defined.

Example marshalFieldMask_invalid_path (C : Collaborators) (e : encoder) :
  marshalFieldMask C e (FieldMask_message ["ok"; "not-valid"; "foo__bar"])
  = (e, Return (Some (errors.New "%s contains invalid path: %q"
                        [errors.ArgString "google.protobuf.FieldMask.paths";
                         errors.ArgString "not-valid"]))).
Proof. rewrite marshalFieldMask_find. reflexivity. Qed.

Example marshalFieldMask_empty (C : Collaborators) (e : encoder) :
  marshalFieldMask C e (FieldMask_message []) = (write e (String_ ""), Return None).
Proof. rewrite marshalFieldMask_find. reflexivity. Qed.

(** ** Full names *)

(** The loop of [FullName.IsValid] never runs out of rounds: with as
    many rounds as bytes are left, more rounds change nothing. *)
Lemma IsValid_loop_rounds (s : string) (fuel1 : nat) : forall (fuel2 i : nat),
  (String.length s - i <= fuel1)%nat -> (String.length s - i <= fuel2)%nat ->
  protoreflect.IsValid_loop fuel1 s i = protoreflect.IsValid_loop fuel2 s i.
Proof.
  induction fuel1 as [|fuel1 IH]; intros fuel2 i H1 H2.
  - destruct fuel2; cbn [protoreflect.IsValid_loop];
      replace (String.length s <=? i)%nat with true
        by (symmetry; apply Nat.leb_le; lia); reflexivity.
  - destruct fuel2 as [|fuel2]; cbn [protoreflect.IsValid_loop];
      destruct (Nat.leb_spec (String.length s) i) as [Hle | Hgt]; try reflexivity.
    + lia.
    + destruct (get i s) as [c|]; [|reflexivity].
      destruct (negb (byte_eqb c ".")); [reflexivity|].
      destruct (protoreflect.consumeIdent (protoreflect.drop (S i) s)) as [n|];
        [|reflexivity].
      apply IH; lia.
Qed.

Example IsValid_examples :
  map protoreflect.FullName_IsValid
      ["foo_bar"; "foo__bar"; "user.display_name"; "_"; "a1.b2";
       ""; "a."; ".a"; "a..b"; "1a"; "a-b"; "a,b"]
  = [true; true; true; true; true;
     false; false; false; false; false; false; false].
Proof. reflexivity. Qed.

(** A path [marshalFieldMask] accepts is the snake case of what it
    writes for it. *)
Lemma path_ok_reversible (p : string) :
  path_ok p = true -> strs.JSONSnakeCase (strs.JSONCamelCase p) = p.
Proof.
  unfold path_ok. intros H. apply andb_prop in H as [_ H].
  apply String.eqb_eq in H. now symmetry.
Qed.

(** ** Any *)

(** C6: an Any with neither the type URL nor the value set is encoded
    as the empty object, without error; with the value set and the type
    URL unset, the encoder returns the error that [type_url] is not set
    and writes nothing. *)
Theorem marshalAny_type_unset (C : Collaborators) (depth : nat) (e : encoder)
        (m : Message) :
  (Has m genid.Any_TypeUrl_field_number = false ->
   Has m genid.Any_Value_field_number = false ->
   marshalAny C (S depth) e m
   = (mkEncoder (out e ++ [ObjectOpen; ObjectClose]) (opts e), Return None))
  /\ (Has m genid.Any_TypeUrl_field_number = false ->
      Has m genid.Any_Value_field_number = true ->
      marshalAny C (S depth) e m
      = (e, Return (Some (errors.New "%s: %v is not set"
                            [errors.ArgString "google.protobuf.Any";
                             errors.ArgString "type_url"])))).
Proof.
  split; intros Ht Hv; cbn [marshalAny]; rewrite Ht, Hv; cbn [negb].
  - unfold EndObject, StartObject, write. cbn [out opts].
    now rewrite <- app_assoc.
  - reflexivity.
Qed.

Lemma marshalAny_type_unset_witness :
  marshalAny naming_collaborators 1 empty_encoder (Any_message None None)
  = (mkEncoder [ObjectOpen; ObjectClose] (opts empty_encoder), Return None)
  /\ marshalAny naming_collaborators 1 empty_encoder (Any_message None (Some "payload"))
     = (empty_encoder,
        Return (Some (errors.New "%s: %v is not set"
                        [errors.ArgString "google.protobuf.Any";
                         errors.ArgString "type_url"]))).
Proof.
  split.
  - apply (proj1 (marshalAny_type_unset naming_collaborators 0 empty_encoder
                    (Any_message None None))); reflexivity.
  - apply (proj2 (marshalAny_type_unset naming_collaborators 0 empty_encoder
                    (Any_message None (Some "payload")))); reflexivity.
Defined.

(** An Any that holds a well-known message is an object of its type URL
    and the value in the encoding of that message. *)
Example marshalAny_holds_Duration :
  marshalAny naming_collaborators 1
    (mkEncoder [] (mkMarshalOptions (fun _ =>
       inl (mkMessageType (Duration_message 1 500000000) "google.protobuf.Duration"))))
    (Any_message (Some "type.googleapis.com/google.protobuf.Duration") (Some ""))
  = (mkEncoder [ObjectOpen; Name "@type";
                String_ "type.googleapis.com/google.protobuf.Duration";
                Name "value"; String_ "1.500s"; ObjectClose]
       (mkMarshalOptions (fun _ =>
          inl (mkMessageType (Duration_message 1 500000000) "google.protobuf.Duration"))),
     Return None).
Proof. reflexivity. Qed.

(** ** Value *)

Example IsNaN_IsInf :
  math.IsNaN PrimFloat.nan = true /\ math.IsInf PrimFloat.infinity = true
  /\ math.IsInf PrimFloat.neg_infinity = true
  /\ math.IsNaN 1.5%float = false /\ math.IsInf 1.5%float = false
  /\ math.IsInf PrimFloat.nan = false /\ math.IsNaN PrimFloat.infinity = false
  /\ math.IsInf 0x1.fffffffffffffp+1023%float = false.
Proof. repeat split. Qed.

(** C7: a Value with no arm of its oneof set is refused with the error
    that none of the oneof fields is set; a number arm that holds NaN or
    an infinity is refused with the error that names the value, and
    nothing is written; any other Value is encoded by the singular
    encoder applied to the arm that is set. *)
Theorem marshalKnownValue_oneof (C : Collaborators) (e : encoder) (m : Message) :
  (WhichOneof m genid.Value_Kind_oneof_name = None ->
   marshalKnownValue C e m
   = (e, Return (Some (errors.New "%s: none of the oneof fields is set"
                         [errors.ArgString "google.protobuf.Value"]))))
  /\ (forall v : float,
        WhichOneof m genid.Value_Kind_oneof_name
          = Some genid.Value_NumberValue_field_number ->
        Get m genid.Value_NumberValue_field_number = ValueOfFloat64 v ->
        math.IsNaN v || math.IsInf v = true ->
        marshalKnownValue C e m
        = (e, Return (Some (errors.New "%s: invalid %v value"
                              [errors.ArgString "google.protobuf.Value.number_value";
                               errors.ArgFloat v]))))
  /\ (forall v : float,
        WhichOneof m genid.Value_Kind_oneof_name
          = Some genid.Value_NumberValue_field_number ->
        Get m genid.Value_NumberValue_field_number = ValueOfFloat64 v ->
        math.IsNaN v || math.IsInf v = false ->
        marshalKnownValue C e m
        = marshalSingular C e (ValueOfFloat64 v) genid.Value_NumberValue_field_number)
  /\ (forall fd : FieldDescriptor,
        WhichOneof m genid.Value_Kind_oneof_name = Some fd ->
        fd <> genid.Value_NumberValue_field_number ->
        marshalKnownValue C e m = marshalSingular C e (Get m fd) fd).
Proof.
  unfold marshalKnownValue. cbv zeta. repeat split.
  - intros ->. reflexivity.
  - intros v -> Hget Hbad. rewrite Z.eqb_refl, Hget. cbn [Value_Float].
    now rewrite Hbad.
  - intros v -> Hget Hok. rewrite Z.eqb_refl, Hget. cbn [Value_Float].
    now rewrite Hok.
  - intros fd -> Hfd. apply Z.eqb_neq in Hfd. now rewrite Hfd.
Qed.

Lemma marshalKnownValue_oneof_witness :
  marshalKnownValue naming_collaborators empty_encoder (Value_message None)
  = (empty_encoder,
     Return (Some (errors.New "%s: none of the oneof fields is set"
                     [errors.ArgString "google.protobuf.Value"])))
  /\ marshalKnownValue naming_collaborators empty_encoder
       (Value_message (Some (2, ValueOfFloat64 PrimFloat.nan)))
     = (empty_encoder,
        Return (Some (errors.New "%s: invalid %v value"
                        [errors.ArgString "google.protobuf.Value.number_value";
                         errors.ArgFloat PrimFloat.nan])))
  /\ marshalKnownValue naming_collaborators empty_encoder
       (Value_message (Some (2, ValueOfFloat64 1.5%float)))
     = marshalSingular naming_collaborators empty_encoder (ValueOfFloat64 1.5%float) 2
  /\ marshalKnownValue naming_collaborators empty_encoder
       (Value_message (Some (3, ValueOfString "text")))
     = marshalSingular naming_collaborators empty_encoder (ValueOfString "text") 3.
Proof.
  pose proof (marshalKnownValue_oneof naming_collaborators empty_encoder
                (Value_message None)) as (H0 & _).
  pose proof (marshalKnownValue_oneof naming_collaborators empty_encoder
                (Value_message (Some (2, ValueOfFloat64 PrimFloat.nan)))) as (_ & H1 & _).
  pose proof (marshalKnownValue_oneof naming_collaborators empty_encoder
                (Value_message (Some (2, ValueOfFloat64 1.5%float)))) as (_ & _ & H2 & _).
  pose proof (marshalKnownValue_oneof naming_collaborators empty_encoder
                (Value_message (Some (3, ValueOfString "text")))) as (_ & _ & _ & H3).
  split; [|split; [|split]].
  - apply H0. reflexivity.
  - apply (H1 PrimFloat.nan); reflexivity.
  - apply (H2 1.5%float); reflexivity.
  - apply (H3 3); [reflexivity | discriminate].
Defined.

(** ** The gateway marshaler *)

(** C10: for a value that is not a [proto.Message], [Marshal] returns
    what [json.Marshal] returns and [Unmarshal] does what
    [json.Unmarshal] does; the marshaler of the protobuf mapping,
    [MarshalOptions.Marshal], and the protobuf decoder are reached by a
    [proto.Message] only. *)
Theorem JSONPb_plain_values (J : Codecs) :
  (forall (v : GoValue) (data : string),
      as_proto_Message v = None ->
      JSONPb.Marshal J v = json_Marshal J v
      /\ JSONPb.Unmarshal J data v = json_Unmarshal J data v)
  /\ (forall (J' : Codecs) (v : GoValue) (data : string),
        as_proto_Message v = None ->
        json_Marshal J' = json_Marshal J ->
        json_Unmarshal J' = json_Unmarshal J ->
        JSONPb.Marshal J' v = JSONPb.Marshal J v
        /\ JSONPb.Unmarshal J' data v = JSONPb.Unmarshal J data v)
  /\ (forall p : Message,
        JSONPb.Marshal J (GoProto p)
        = match MarshalOptions_Marshal J p with
          | (_, Some err) => ("", Some err)
          | (b, None) => (b, None)
          end).
Proof.
  split; [|split].
  - intros v data Hv. unfold JSONPb.Marshal, JSONPb.Unmarshal, JSONPb.unmarshalJSONPb.
    now rewrite Hv.
  - intros J' v data Hv Hm Hu.
    unfold JSONPb.Marshal, JSONPb.Unmarshal, JSONPb.unmarshalJSONPb.
    now rewrite Hv, Hm, Hu.
  - intros p. unfold JSONPb.Marshal, JSONPb.marshalTo. cbn [as_proto_Message].
    destruct (MarshalOptions_Marshal J p) as [b [err|]]; reflexivity.
Qed.

Lemma JSONPb_plain_values_witness :
  JSONPb.Marshal plain_codecs (GoString "id") = json_Marshal plain_codecs (GoString "id")
  /\ JSONPb.Unmarshal plain_codecs "7" (GoString "id")
     = json_Unmarshal plain_codecs "7" (GoString "id").
Proof.
  apply (proj1 (JSONPb_plain_values plain_codecs) (GoString "id") "7"). reflexivity.
Defined.


(** ** More on the name converters *)

Ltac all_bytes_cases c :=
  destruct c as [[] [] [] [] [] [] [] []]; vm_compute;
  intros Hbyte; try discriminate Hbyte; repeat split; discriminate.

Lemma lower_then_upper (c : byte) :
  strs.isASCIILower c = true ->
  strs.isASCIIUpper (byte_sub c (byte_val "a" - byte_val "A")) = true
  /\ byte_add (byte_sub c (byte_val "a" - byte_val "A")) (byte_val "a" - byte_val "A") = c
  /\ strs.isASCIIUpper c = false /\ byte_eqb c "_" = false.
Proof. all_bytes_cases c. Qed.

Lemma upper_then_lower (c : byte) :
  strs.isASCIIUpper c = true ->
  strs.isASCIILower (byte_add c (byte_val "a" - byte_val "A")) = true
  /\ byte_sub (byte_add c (byte_val "a" - byte_val "A")) (byte_val "a" - byte_val "A") = c
  /\ strs.isASCIIUpper (byte_add c (byte_val "a" - byte_val "A")) = false
  /\ byte_add c (byte_val "a" - byte_val "A") <> c
  /\ byte_eqb (byte_add c (byte_val "a" - byte_val "A")) "_" = false
  /\ byte_eqb c "_" = false.
Proof. all_bytes_cases c. Qed.

Lemma JSONCamelCase_loop_plain (s : string) : forall w : bool,
  count_byte "_" s = 0%nat ->
  (w = true -> match s with
               | String c _ => strs.isASCIILower c = false
               | EmptyString => True
               end) ->
  strs.JSONCamelCase_loop w s = s.
Proof.
  induction s as [|c s IH]; intros w Hcount Hw; [reflexivity|].
  cbn [count_byte] in Hcount.
  destruct (byte_eqb c "_") eqn:Hc; [discriminate|].
  rewrite JSONCamelCase_loop_byte by assumption.
  rewrite IH by (cbn in Hcount; try assumption; discriminate).
  destruct w; cbn [andb]; [|reflexivity].
  now rewrite (Hw eq_refl).
Qed.

(** X1: [JSONCamelCase] leaves a string without underscore as it is; so
    converting twice is converting once. *)
Theorem JSONCamelCase_idempotent :
  (forall s : string, count_byte "_" s = 0%nat -> strs.JSONCamelCase s = s)
  /\ (forall s : string,
        strs.JSONCamelCase (strs.JSONCamelCase s) = strs.JSONCamelCase s).
Proof.
  assert (H : forall s, count_byte "_" s = 0%nat -> strs.JSONCamelCase s = s).
  { intros s Hs. apply JSONCamelCase_loop_plain; [assumption | discriminate]. }
  split; [exact H|].
  intros s. apply H. apply JSONCamelCase_loop_no_underscore.
Qed.

Lemma JSONCamelCase_idempotent_witness :
  strs.JSONCamelCase "fooBar.baz9" = "fooBar.baz9".
Proof. apply (proj1 JSONCamelCase_idempotent). reflexivity. Defined.

(** X2: [JSONSnakeCase] writes no uppercase ASCII letter, never writes
    fewer bytes than it reads, and leaves a string without uppercase
    letter as it is. *)
Theorem JSONSnakeCase_lowercase :
  (forall s : string,
      all_bytes (fun c => negb (strs.isASCIIUpper c)) (strs.JSONSnakeCase s) = true)
  /\ (forall s : string,
        (String.length s <= String.length (strs.JSONSnakeCase s))%nat)
  /\ (forall s : string,
        all_bytes (fun c => negb (strs.isASCIIUpper c)) s = true ->
        strs.JSONSnakeCase s = s).
Proof.
  split; [|split].
  - induction s as [|c s IH]; [reflexivity|].
    cbn [strs.JSONSnakeCase]. destruct (strs.isASCIIUpper c) eqn:Hu.
    + cbn [all_bytes]. rewrite IH.
      destruct (upper_then_lower c Hu) as (_ & _ & -> & _). reflexivity.
    + cbn [all_bytes]. now rewrite Hu, IH.
  - induction s as [|c s IH]; [apply Nat.le_refl|].
    cbn [strs.JSONSnakeCase]. destruct (strs.isASCIIUpper c); cbn [String.length]; lia.
  - induction s as [|c s IH]; [reflexivity|].
    cbn [all_bytes strs.JSONSnakeCase]. intros H. apply andb_prop in H as [Hc Hs].
    apply negb_true_iff in Hc. now rewrite Hc, IH.
Qed.

Lemma JSONSnakeCase_lowercase_witness : strs.JSONSnakeCase "foo_bar.baz9" = "foo_bar.baz9".
Proof. apply (proj2 (proj2 JSONSnakeCase_lowercase)). reflexivity. Defined.

Lemma camel_of_snake_loop (s : string) :
  count_byte "_" s = 0%nat ->
  strs.JSONCamelCase_loop false (strs.JSONSnakeCase s) = s.
Proof.
  induction s as [|c s IH]; intros Hcount; [reflexivity|].
  cbn [count_byte] in Hcount.
  destruct (byte_eqb c "_") eqn:Hc; [discriminate|].
  cbn [strs.JSONSnakeCase]. destruct (strs.isASCIIUpper c) eqn:Hu.
  - destruct (upper_then_lower c Hu) as (Hl & Hback & _ & _ & Hne & _).
    rewrite JSONCamelCase_loop_underscore.
    rewrite JSONCamelCase_loop_byte by assumption.
    cbn [andb]. rewrite Hl, Hback. now rewrite IH.
  - rewrite JSONCamelCase_loop_byte by assumption.
    cbn [andb]. now rewrite IH.
Qed.

(** X3: the camelCase of the snake_case of a string without underscore
    is the string: what [JSONSnakeCase] makes of a camelCase name loses
    nothing.  So the camelCase form of any string is a fixed point of the
    two conversions. *)
Theorem JSONCamelCase_of_JSONSnakeCase :
  (forall s : string,
      count_byte "_" s = 0%nat ->
      strs.JSONCamelCase (strs.JSONSnakeCase s) = s)
  /\ (forall s : string,
        strs.JSONCamelCase (strs.JSONSnakeCase (strs.JSONCamelCase s))
        = strs.JSONCamelCase s).
Proof.
  split.
  - intros s Hs. now apply camel_of_snake_loop.
  - intros s. apply camel_of_snake_loop, JSONCamelCase_loop_no_underscore.
Qed.

Lemma JSONCamelCase_of_JSONSnakeCase_witness :
  strs.JSONCamelCase (strs.JSONSnakeCase "fooBarBaz") = "fooBarBaz".
Proof. apply (proj1 JSONCamelCase_of_JSONSnakeCase). reflexivity. Defined.

(** What [JSONSnakeCase] makes of a string without underscore never
    starts with two underscores. *)
Lemma JSONSnakeCase_no_double_underscore (t r : string) :
  count_byte "_" t = 0%nat ->
  strs.JSONSnakeCase t <> String "_" (String "_" r).
Proof.
  destruct t as [|d t]; [discriminate|].
  cbn [count_byte strs.JSONSnakeCase]. intros Hcount.
  destruct (byte_eqb d "_") eqn:Hd; [discriminate|].
  destruct (strs.isASCIIUpper d) eqn:Hu.
  - destruct (upper_then_lower d Hu) as (_ & _ & _ & _ & Hne & _).
    apply Ascii.eqb_neq in Hne.
    intros H. injection H as H _. exact (Hne H).
  - intros H. injection H as H _. subst d. discriminate.
Qed.

Lemma reversible_loop (s : string) :
  (strs.JSONSnakeCase (strs.JSONCamelCase_loop false s) = s
   <-> snake_form s = true)
  /\ (strs.JSONSnakeCase (strs.JSONCamelCase_loop true s) = String "_" s
      <-> starts_lower s = true /\ snake_form s = true).
Proof.
  induction s as [|c s [IH1 IH2]].
  - split; split; try reflexivity; cbn; try discriminate.
    intros [H _]. discriminate.
  - destruct (byte_eqb c "_") eqn:Hc.
    + apply Ascii.eqb_eq in Hc. subst c.
      rewrite !JSONCamelCase_loop_underscore. split.
      * rewrite IH2. cbn [snake_form]. change (byte_eqb "_" "_") with true. cbv iota.
        destruct s as [|d s]; cbn [starts_lower].
        -- split; [intros [H _]; discriminate | discriminate].
        -- rewrite andb_true_iff. reflexivity.
      * split.
        -- intros H. exfalso.
           apply (JSONSnakeCase_no_double_underscore
                    (strs.JSONCamelCase_loop true s) s);
             [apply JSONCamelCase_loop_no_underscore | exact H].
        -- intros [H _]. discriminate.
    + rewrite !JSONCamelCase_loop_byte by assumption.
      cbn [andb snake_form starts_lower]. rewrite Hc. split.
      * cbn [strs.JSONSnakeCase].
        destruct (strs.isASCIIUpper c) eqn:Hu; cbn [negb andb].
        -- split; [|discriminate].
           intros H. injection H as H _. subst c. discriminate.
        -- rewrite <- IH1. split; [intros H; now injection H | intros ->; reflexivity].
      * destruct (strs.isASCIILower c) eqn:Hl.
        -- destruct (lower_then_upper c Hl) as (Hup & Hback & Hnu & _).
           cbn [strs.JSONSnakeCase]. rewrite Hup, Hback, Hnu. cbn [negb andb].
           rewrite <- IH1.
           split; [intros H; injection H as H; auto | intros [_ ->]; reflexivity].
        -- split; [|intros [H _]; discriminate].
           cbn [strs.JSONSnakeCase].
           destruct (strs.isASCIIUpper c) eqn:Hu.
           ++ destruct (upper_then_lower c Hu) as (_ & _ & _ & Hne & _).
              intros H. injection H as H _. exfalso. exact (Hne H).
           ++ intros H. injection H as H _. subst c. discriminate.
Qed.

(** X4: the conversion to camelCase can be reversed, that is
    [JSONSnakeCase (JSONCamelCase s)] is [s], exactly when [s] has no
    uppercase letter and a lowercase letter after every underscore. *)
Theorem JSONCamelCase_reversible_iff (s : string) :
  strs.JSONSnakeCase (strs.JSONCamelCase s) = s <-> snake_form s = true.
Proof. apply (proj1 (reversible_loop s)). Qed.

Example reversible_examples :
  map snake_form ["foo_bar"; "user.display_name"; "_a"; "x9";
                  "foo__bar"; "foo_"; "fooBar"; "a_1"; "a_.b"; "A"]
  = [true; true; true; true; false; false; false; false; false; false]
  /\ map (fun s => String.eqb s (strs.JSONSnakeCase (strs.JSONCamelCase s)))
         ["foo_bar"; "user.display_name"; "_a"; "x9";
          "foo__bar"; "foo_"; "fooBar"; "a_1"; "a_.b"; "A"]
     = [true; true; true; true; false; false; false; false; false; false].
Proof. split; reflexivity. Qed.

(** ** GoCamelCase *)

Lemma lower_byte_facts (c : byte) :
  strs.isASCIILower c = true ->
  byte_eqb c "." = false /\ byte_eqb c "_" = false /\ strs.isASCIIDigit c = false
  /\ byte_eqb (byte_sub c (byte_val "a" - byte_val "A")) "." = false
  /\ byte_eqb (byte_sub c (byte_val "a" - byte_val "A")) "_" = false
  /\ strs.isASCIIDigit (byte_sub c (byte_val "a" - byte_val "A")) = false
  /\ strs.isASCIILower (byte_sub c (byte_val "a" - byte_val "A")) = false.
Proof. all_bytes_cases c. Qed.

Lemma digit_byte_facts (c : byte) :
  strs.isASCIIDigit c = true ->
  byte_eqb c "." = false /\ strs.isASCIILower c = false.
Proof. all_bytes_cases c. Qed.

(** One round of the switch, by cases: the copy inside a word, the two
    cases of the dot, the initial underscore, the skipped underscore, the
    digit and the default. *)
Ltac go_cases c s prev :=
  cbn [strs_go.GoCamelCase_loop];
  change (match s with
          | String d _ => strs.isASCIILower d
          | EmptyString => false
          end) with (starts_lower s);
  destruct (_ && strs.isASCIILower c) eqn:Hrun;
  [| destruct (byte_eqb c ".") eqn:Hdot; cbn [andb];
     [ destruct (starts_lower s) eqn:Hnext
     | destruct (byte_eqb c "_"
                 && match prev with
                    | Some p => byte_eqb p "."
                    | None => true
                    end) eqn:Hinit;
       [| destruct (byte_eqb c "_" && starts_lower s) eqn:Hskip;
          [| destruct (strs.isASCIIDigit c) eqn:Hdig ] ] ] ].

Lemma GoCamelCase_loop_no_dot (s : string) : forall (inWord : bool) (prev : option byte),
  count_byte "." (strs_go.GoCamelCase_loop inWord prev s) = 0%nat.
Proof.
  induction s as [|c s IH]; intros inWord prev; [reflexivity|].
  go_cases c s prev; cbn [count_byte]; rewrite ?IH; try reflexivity.
  - apply andb_prop in Hrun as [_ Hl].
    now destruct (lower_byte_facts c Hl) as (-> & _).
  - now destruct (digit_byte_facts c Hdig) as (-> & _).
  - destruct (strs.isASCIILower c) eqn:Hl.
    + now destruct (lower_byte_facts c Hl) as (_ & _ & _ & -> & _).
    + now rewrite Hdot.
Qed.

Lemma GoCamelCase_loop_length (s : string) : forall (inWord : bool) (prev : option byte),
  (String.length (strs_go.GoCamelCase_loop inWord prev s) <= String.length s)%nat.
Proof.
  induction s as [|c s IH]; intros inWord prev; [apply Nat.le_refl|].
  go_cases c s prev; cbn [String.length];
    match goal with
    | |- context [strs_go.GoCamelCase_loop ?w ?p s] => specialize (IH w p)
    end; lia.
Qed.

Lemma GoCamelCase_loop_words (s : string) :
  forall (inWord : bool) (prev pout : option byte),
    (inWord = true -> starts_lower s = true -> may_precede_lower pout = true) ->
    words_capitalized pout (strs_go.GoCamelCase_loop inWord prev s) = true.
Proof.
  induction s as [|c s IH]; intros inWord prev pout Hinv; [reflexivity|].
  go_cases c s prev; cbn [words_capitalized].
  - (* inside a word: a lowercase letter is copied *)
    apply andb_prop in Hrun as [-> Hl]. rewrite Hl.
    cbn [starts_lower] in Hinv. rewrite (Hinv eq_refl Hl). cbn [andb].
    apply IH. intros _ _. unfold may_precede_lower.
    now destruct (lower_byte_facts c Hl) as (-> & -> & -> & _).
  - apply IH. discriminate.
  - change (strs.isASCIILower "_") with false. cbv iota. cbn [andb].
    apply IH. discriminate.
  - change (strs.isASCIILower "X") with false. cbv iota. cbn [andb].
    apply IH. discriminate.
  - apply IH. discriminate.
  - destruct (digit_byte_facts c Hdig) as (_ & ->). cbn [andb].
    apply IH. discriminate.
  - (* the default case *)
    destruct (strs.isASCIILower c) eqn:Hl.
    + destruct (lower_byte_facts c Hl) as (_ & _ & _ & Hd & Hu & Hg & ->).
      cbn [andb]. apply IH. intros _ _. unfold may_precede_lower.
      now rewrite Hg, Hu, Hd.
    + rewrite Hl. cbn [andb]. apply IH. intros _ Hnext. unfold may_precede_lower.
      rewrite Hdig, Hdot. cbn [negb andb].
      destruct (byte_eqb c "_") eqn:Hc; [|reflexivity].
      cbn [andb] in Hskip. congruence.
Qed.

(** X5: [GoCamelCase] keeps the invariant its comment states: in its
    output a lowercase letter is never the first byte and never follows
    a digit, an underscore or a dot, so every word starts in upper case.
    The output has no dot and is no longer than the input. *)
Theorem GoCamelCase_words (s : string) :
  words_capitalized None (strs_go.GoCamelCase s) = true
  /\ count_byte "." (strs_go.GoCamelCase s) = 0%nat
  /\ (String.length (strs_go.GoCamelCase s) <= String.length s)%nat.
Proof.
  unfold strs_go.GoCamelCase. split; [|split].
  - apply GoCamelCase_loop_words. discriminate.
  - apply GoCamelCase_loop_no_dot.
  - apply GoCamelCase_loop_length.
Qed.

Example GoCamelCase_examples :
  map strs_go.GoCamelCase
      ["foo_bar"; "foo_1"; "_foo"; "foo.bar"; "foo._bar"; "foo.Bar"; "a__b";
       "foo_"; "my_field_name_2"; ".a"; ".A"; ""; "a-b"]
  = ["FooBar"; "Foo_1"; "XFoo"; "FooBar"; "Foo_XBar"; "Foo_Bar"; "A_B";
     "Foo_"; "MyFieldName_2"; "A"; "_A"; ""; "A-b"].
Proof. reflexivity. Qed.

(** ** More on FieldMask *)

(** X6: when [marshalFieldMask] returns without error, every path is a
    valid full name in the reversible snake_case form, the text written
    is the camelCase paths joined by commas, none of them has an
    underscore, and [JSONSnakeCase] gives the paths back from them. *)
Theorem marshalFieldMask_success (C : Collaborators) (e e' : encoder)
        (paths : list string) :
  marshalFieldMask C e (FieldMask_message paths) = (e', Return None) ->
  (forall p, In p paths ->
             protoreflect.FullName_IsValid p = true /\ snake_form p = true)
  /\ e' = write e (String_ (strings.Join (map strs.JSONCamelCase paths) ","))
  /\ (forall c, In c (map strs.JSONCamelCase paths) -> count_byte "_" c = 0%nat)
  /\ map strs.JSONSnakeCase (map strs.JSONCamelCase paths) = paths.
Proof.
  rewrite marshalFieldMask_find.
  destruct (find (fun p => negb (path_ok p)) paths) as [p|] eqn:Hfind;
    [discriminate|].
  intros H. injection H as <-.
  assert (Hok : forall p, In p paths -> path_ok p = true).
  { intros p Hin. apply (find_none _ _ Hfind) in Hin. now apply negb_false_iff in Hin. }
  split; [|split; [reflexivity|split]].
  - intros p Hin. specialize (Hok p Hin). unfold path_ok in Hok.
    apply andb_prop in Hok as [Hv Hr]. split; [exact Hv|].
    apply (proj1 (reversible_loop p)). apply String.eqb_eq in Hr. now symmetry.
  - intros c Hin. apply in_map_iff in Hin as (p & <- & _).
    apply JSONCamelCase_loop_no_underscore.
  - rewrite map_map. rewrite <- (map_id paths) at 2.
    apply map_ext_in. intros p Hin. now apply path_ok_reversible, Hok.
Qed.

Lemma marshalFieldMask_success_witness :
  (forall p, In p ["user.display_name"; "photo"] ->
             protoreflect.FullName_IsValid p = true /\ snake_form p = true)
  /\ write empty_encoder (String_ "user.displayName,photo")
     = write empty_encoder
         (String_ (strings.Join (map strs.JSONCamelCase ["user.display_name"; "photo"]) ","))
  /\ (forall c, In c (map strs.JSONCamelCase ["user.display_name"; "photo"]) ->
                count_byte "_" c = 0%nat)
  /\ map strs.JSONSnakeCase (map strs.JSONCamelCase ["user.display_name"; "photo"])
     = ["user.display_name"; "photo"].
Proof.
  apply (marshalFieldMask_success naming_collaborators empty_encoder).
  reflexivity.
Defined.

(** ** The dispatcher *)

Lemma LastIndexByte_split (s : string) (c : byte) : forall i : nat,
  strings.LastIndexByte s c = Some i ->
  s = substring 0 i s ++ String c (protoreflect.drop (S i) s).
Proof.
  induction s as [|d s IH]; intros i; cbn [strings.LastIndexByte]; [discriminate|].
  destruct (strings.LastIndexByte s c) as [j|] eqn:Hj.
  - intros H. injection H as <-.
    cbn [substring protoreflect.drop String.append]. f_equal. now apply IH.
  - destruct (byte_eqb d c) eqn:Hd; [|discriminate].
    intros H. injection H as <-. apply Ascii.eqb_eq in Hd. subst d.
    cbn [substring protoreflect.drop]. now destruct s.
Qed.

(** A full name is its parent, a dot and its name, when it has a
    parent. *)
Lemma FullName_Parent_Name (name : protoreflect.FullName) :
  protoreflect.FullName_Parent name <> "" ->
  name = protoreflect.FullName_Parent name ++ "." ++ protoreflect.FullName_Name name.
Proof.
  unfold protoreflect.FullName_Parent, protoreflect.FullName_Name.
  destruct (strings.LastIndexByte name ".") as [i|] eqn:Hi; [|congruence].
  intros _. now apply LastIndexByte_split.
Qed.

(** X7: [wellKnownTypeMarshaler] answers a closed set of names: it
    returns a function exactly for the seventeen full names of
    [wellKnownTypes], each directly in the package [google.protobuf], and
    [nil] for every other name. *)
Theorem wellKnownTypeMarshaler_closed (name : protoreflect.FullName) (f : marshalFunc) :
  wellKnownTypeMarshaler name = Some f <-> In (name, f) wellKnownTypes.
Proof.
  split.
  - unfold wellKnownTypeMarshaler.
    destruct (String.eqb (protoreflect.FullName_Parent name)
                         genid.GoogleProtobuf_package) eqn:Hp; [|discriminate].
    apply String.eqb_eq in Hp.
    assert (Hname : name = "google.protobuf." ++ protoreflect.FullName_Name name).
    { rewrite (FullName_Parent_Name name) at 1 by (rewrite Hp; discriminate).
      rewrite Hp. reflexivity. }
    cbv zeta. unfold name_in. cbn [existsb].
    repeat match goal with
           | |- context [String.eqb (protoreflect.FullName_Name name) ?n] =>
               let E := fresh "E" in
               destruct (String.eqb (protoreflect.FullName_Name name) n) eqn:E;
               [ apply String.eqb_eq in E; rewrite E in Hname; cbn [orb];
                 intros H; injection H as <-; rewrite Hname;
                 unfold wellKnownTypes; cbn; tauto
               | cbn [orb] ]
           end.
    discriminate.
  - unfold wellKnownTypes. cbn [In].
    intros H.
    repeat (destruct H as [H | H]; [injection H as <- <-; reflexivity|]).
    contradiction.
Qed.

Example wellKnownTypeMarshaler_other_names :
  map wellKnownTypeMarshaler
      ["Any"; "my.google.protobuf.Any"; "google.protobuf.Any.Inner";
       "google.protobuf.any"; "google.protobuf"; "google.protobuf.NullValue"; ""]
  = [None; None; None; None; None; None; None].
Proof. reflexivity. Qed.

(** ** More on Any *)

(** X8: with the type URL set, [marshalAny] fails before it writes
    anything when the registry cannot resolve the URL or the payload does
    not decode; each error names the URL and carries the cause. *)
Theorem marshalAny_resolve_errors (C : Collaborators) (depth : nat) (e : encoder)
        (m : Message) :
  Has m genid.Any_TypeUrl_field_number = true ->
  (forall err,
      Resolver_FindMessageByURL (opts e)
        (Value_String C (Get m genid.Any_TypeUrl_field_number)) = inr err ->
      marshalAny C (S depth) e m
      = (e, Return (Some (errors.New "%s: unable to resolve %q: %v"
                            [errors.ArgString "google.protobuf.Any";
                             errors.ArgString
                               (Value_String C (Get m genid.Any_TypeUrl_field_number));
                             errors.ArgError err]))))
  /\ (forall emt b em err,
        Resolver_FindMessageByURL (opts e)
          (Value_String C (Get m genid.Any_TypeUrl_field_number)) = inl emt ->
        Get m genid.Any_Value_field_number = ValueOfBytes b ->
        proto_Unmarshal C (opts e) b (New emt) = (em, Some err) ->
        marshalAny C (S depth) e m
        = (e, Return (Some (errors.New "%s: unable to unmarshal %q: %v"
                              [errors.ArgString "google.protobuf.Any";
                               errors.ArgString
                                 (Value_String C (Get m genid.Any_TypeUrl_field_number));
                               errors.ArgError err])))).
Proof.
  intros Ht. split.
  - intros err Hres. cbn [marshalAny]. rewrite Ht. cbn [negb]. cbv zeta.
    now rewrite Hres.
  - intros emt b em err Hres Hval Hun. cbn [marshalAny]. rewrite Ht. cbn [negb].
    cbv zeta. rewrite Hres, Hval. cbn [Value_Bytes]. now rewrite Hun.
Qed.

Lemma marshalAny_resolve_errors_witness :
  marshalAny naming_collaborators 1 empty_encoder
    (Any_message (Some "type.googleapis.com/unknown.Type") (Some "payload"))
  = (empty_encoder,
     Return (Some (errors.New "%s: unable to resolve %q: %v"
                     [errors.ArgString "google.protobuf.Any";
                      errors.ArgString "type.googleapis.com/unknown.Type";
                      errors.ArgError (errors.External "not found")]))).
Proof.
  apply (proj1 (marshalAny_resolve_errors naming_collaborators 0 empty_encoder
                  (Any_message (Some "type.googleapis.com/unknown.Type")
                               (Some "payload")) eq_refl)).
  reflexivity.
Defined.

(** The envelope of a well-known type: for a URL the writer accepts,
    the object is opened, the marshaler of the type runs after the
    "@type" member and the name "value", and the object is closed
    whatever that marshaler returns. *)
Lemma marshalAny_envelope (C : Collaborators) (depth : nat) (e : encoder)
      (m : Message) (emt : MessageType) (b : string) (em : Message)
      (marshal : marshalFunc) :
  Has m genid.Any_TypeUrl_field_number = true ->
  Resolver_FindMessageByURL (opts e)
    (Value_String C (Get m genid.Any_TypeUrl_field_number)) = inl emt ->
  Get m genid.Any_Value_field_number = ValueOfBytes b ->
  proto_Unmarshal C (opts e) b (New emt) = (em, None) ->
  wellKnownTypeMarshaler (MessageType_FullName emt) = Some marshal ->
  utf8.ValidString (Value_String C (Get m genid.Any_TypeUrl_field_number)) = true ->
  marshalAny C (S depth) e m
  = let (e', r) :=
      callMarshal C depth marshal
        (mkEncoder (out e ++ [ObjectOpen; Name "@type";
                              String_ (Value_String C
                                         (Get m genid.Any_TypeUrl_field_number));
                              Name "value"]) (opts e)) em in
    (EndObject e', r).
Proof.
  intros Ht Hres Hval Hun Hwk Hutf. cbn [marshalAny]. rewrite Ht. cbn [negb]. cbv zeta.
  rewrite Hres, Hval. cbn [Value_Bytes]. rewrite Hun, Hwk.
  unfold WriteString, WriteName, StartObject, EndObject, write. cbn [out opts].
  rewrite <- !app_assoc. cbn [app]. rewrite Hutf.
  unfold callMarshal. destruct marshal; reflexivity.
Qed.

(** X9: an Any whose URL resolves and whose payload decodes to [em] is
    encoded by kind.  For a well-known type, and a URL the writer
    accepts, the encoder opens an object, writes the member "@type" with
    the URL and the name "value", runs the marshaler of the type on [em]
    and closes the object, also when that marshaler fails, whose result
    it returns.  For any other type it hands [em] and the URL to
    [marshalMessage] and writes nothing itself. *)
Theorem marshalAny_resolved (C : Collaborators) (depth : nat) (e : encoder)
        (m : Message) (emt : MessageType) (b : string) (em : Message) :
  let typeURL := Value_String C (Get m genid.Any_TypeUrl_field_number) in
  Has m genid.Any_TypeUrl_field_number = true ->
  Resolver_FindMessageByURL (opts e) typeURL = inl emt ->
  Get m genid.Any_Value_field_number = ValueOfBytes b ->
  proto_Unmarshal C (opts e) b (New emt) = (em, None) ->
  (forall marshal,
      wellKnownTypeMarshaler (MessageType_FullName emt) = Some marshal ->
      utf8.ValidString typeURL = true ->
      marshalAny C (S depth) e m
      = let (e', r) :=
          callMarshal C depth marshal
            (mkEncoder (out e ++ [ObjectOpen; Name "@type"; String_ typeURL;
                                  Name "value"]) (opts e)) em in
        (EndObject e', r))
  /\ (wellKnownTypeMarshaler (MessageType_FullName emt) = None ->
      marshalAny C (S depth) e m = marshalMessage C e em typeURL).
Proof.
  intros typeURL Ht Hres Hval Hun. subst typeURL. split.
  - intros marshal Hwk Hutf. now apply (marshalAny_envelope C depth e m emt b em).
  - intros Hwk. cbn [marshalAny]. rewrite Ht. cbn [negb]. cbv zeta.
    rewrite Hres, Hval. cbn [Value_Bytes]. now rewrite Hun, Hwk.
Qed.

Lemma Any_Get_type (url : string) (value : option string) :
  Get (Any_message (Some url) value) genid.Any_TypeUrl_field_number
  = ValueOfString url.
Proof. reflexivity. Qed.

(** X10: an Any that holds a Duration.  When the URL is UTF-8 and
    resolves to [google.protobuf.Duration], and the payload decodes to
    the Duration [(secs, nanos)], the tokens written are the object with
    "@type" and "value", the value being what [marshalDuration] writes,
    and the result is the result of [marshalDuration]: for a Duration out
    of range the error comes back, after the object with the "value" name
    and no value has been written and closed. *)
Theorem marshalAny_holds_a_Duration (C : Collaborators) (depth : nat) (e : encoder)
        (url payload : string) (secs nanos : Z) (new : Message) :
  utf8.ValidString url = true ->
  Resolver_FindMessageByURL (opts e) url
    = inl (mkMessageType new "google.protobuf.Duration") ->
  proto_Unmarshal C (opts e) payload new = (Duration_message secs nanos, None) ->
  let e0 := mkEncoder (out e ++ [ObjectOpen; Name "@type"; String_ url; Name "value"])
                      (opts e) in
  marshalAny C (S depth) e (Any_message (Some url) (Some payload))
  = (EndObject (fst (marshalDuration e0 (Duration_message secs nanos))),
     snd (marshalDuration e0 (Duration_message secs nanos)))
  /\ (- 315576000000 <= secs <= 315576000000 ->
      - 999999999 <= nanos <= 999999999 ->
      (0 <= secs /\ 0 <= nanos) \/ (secs <= 0 /\ nanos <= 0) ->
      exists x,
        regexp.MatchString regexp.duration_text x = true
        /\ marshalAny C (S depth) e (Any_message (Some url) (Some payload))
           = (mkEncoder (out e ++ [ObjectOpen; Name "@type"; String_ url; Name "value";
                                   String_ x; ObjectClose]) (opts e),
              Return None))
  /\ (secs < - 315576000000 \/ 315576000000 < secs ->
      marshalAny C (S depth) e (Any_message (Some url) (Some payload))
      = (mkEncoder (out e ++ [ObjectOpen; Name "@type"; String_ url; Name "value";
                              ObjectClose]) (opts e),
         Return (Some (errors.New "%s: seconds out of range %v"
                         [errors.ArgString "google.protobuf.Duration";
                          errors.ArgInt secs])))).
Proof.
  intros Hutf Hres Hun e0.
  assert (Hany : marshalAny C (S depth) e (Any_message (Some url) (Some payload))
                 = (EndObject (fst (marshalDuration e0 (Duration_message secs nanos))),
                    snd (marshalDuration e0 (Duration_message secs nanos)))).
  { rewrite (marshalAny_envelope C depth e (Any_message (Some url) (Some payload))
               (mkMessageType new "google.protobuf.Duration") payload
               (Duration_message secs nanos) encoder_marshalDuration
               eq_refl Hres eq_refl Hun eq_refl Hutf).
    rewrite Any_Get_type. cbn [Value_String callMarshal]. fold e0.
    now destruct (marshalDuration e0 (Duration_message secs nanos)). }
  split; [exact Hany|split].
  - intros Hs Hn Hsg.
    pose proof (marshalDuration_valid e0 secs nanos Hs Hn Hsg) as Hx.
    match type of Hx with
    | _ = (write _ (String_ ?t), _) => set (x := t) in Hx
    end.
    assert (Hm : regexp.MatchString regexp.duration_text x = true).
    { subst x. apply duration_text_matches.
      - destruct ((secs <? 0) || (nanos <? 0)); auto.
      - lia.
      - lia. }
    exists x. split; [exact Hm|].
    rewrite Hany, Hx. unfold EndObject, write, e0. cbn [fst snd out opts].
    now rewrite <- !app_assoc.
  - intros Hc. rewrite Hany.
    assert (Hd : marshalDuration e0 (Duration_message secs nanos)
                 = (e0, Return (Some (errors.New "%s: seconds out of range %v"
                                        [errors.ArgString "google.protobuf.Duration";
                                         errors.ArgInt secs])))).
    { unfold marshalDuration. cbv zeta.
      rewrite Duration_Get_seconds, Duration_Get_nanos. cbn [Value_Int].
      unfold maxSecondsInDuration.
      destruct (Z.ltb_spec secs (Z.opp 315576000000)); [reflexivity|].
      destruct (Z.ltb_spec 315576000000 secs); [reflexivity|]. lia. }
    rewrite Hd. unfold EndObject, write, e0. cbn [fst snd out opts].
    now rewrite <- !app_assoc.
Qed.

Lemma marshalAny_resolved_witness :
  marshalAny naming_collaborators 1 duration_encoder
    (Any_message (Some "type.googleapis.com/google.protobuf.Duration") (Some ""))
  = (mkEncoder [ObjectOpen; Name "@type";
                String_ "type.googleapis.com/google.protobuf.Duration";
                Name "value"; String_ "1.500s"; ObjectClose]
       (opts duration_encoder), Return None)
  /\ marshalAny naming_collaborators 1 custom_encoder
       (Any_message (Some "type.googleapis.com/my.pkg.Custom") (Some ""))
     = marshalMessage naming_collaborators custom_encoder
         (Duration_message 1 500000000) "type.googleapis.com/my.pkg.Custom".
Proof.
  split.
  - rewrite (proj1 (marshalAny_resolved naming_collaborators 0 duration_encoder
                      (Any_message (Some "type.googleapis.com/google.protobuf.Duration")
                                   (Some ""))
                      (mkMessageType (Duration_message 1 500000000)
                                     "google.protobuf.Duration")
                      "" (Duration_message 1 500000000)
                      eq_refl eq_refl eq_refl eq_refl)
                   encoder_marshalDuration eq_refl eq_refl).
    reflexivity.
  - apply (proj2 (marshalAny_resolved naming_collaborators 0 custom_encoder
                    (Any_message (Some "type.googleapis.com/my.pkg.Custom") (Some ""))
                    (mkMessageType (Duration_message 1 500000000) "my.pkg.Custom")
                    "" (Duration_message 1 500000000)
                    eq_refl eq_refl eq_refl eq_refl)).
    reflexivity.
Defined.

Lemma marshalAny_holds_a_Duration_witness :
  exists x,
    regexp.MatchString regexp.duration_text x = true
    /\ marshalAny naming_collaborators 1 duration_encoder
         (Any_message (Some "type.googleapis.com/google.protobuf.Duration") (Some ""))
       = (mkEncoder (out duration_encoder
                     ++ [ObjectOpen; Name "@type";
                         String_ "type.googleapis.com/google.protobuf.Duration";
                         Name "value"; String_ x; ObjectClose])
            (opts duration_encoder), Return None).
Proof.
  apply (proj1 (proj2 (marshalAny_holds_a_Duration naming_collaborators 0 duration_encoder
                         "type.googleapis.com/google.protobuf.Duration" ""
                         1 500000000 (Duration_message 1 500000000)
                         eq_refl eq_refl eq_refl))); lia.
Defined.

(** ** More on the gateway marshaler *)

(** X11: [marshalTo] and the encoder of [NewEncoder] on any writer.
    When [Marshal] fails, both return its error and do not call [Write].
    When [Marshal] gives bytes, [marshalTo] makes one call of [Write],
    with exactly these bytes, and returns what the writer returns; the
    encoder returns the error of that call if there is one, without
    writing the delimiter, and otherwise writes the newline delimiter
    and returns what the writer returns for it.  On a [bytes.Buffer],
    which does not fail, the bytes and then the bytes and the newline are
    appended. *)
Theorem JSONPb_writers (J : Codecs) (S : Type) (Write : Writer S) (w : S)
        (v : GoValue) :
  (forall b err, JSONPb.Marshal J v = (b, Some err) ->
                 JSONPb.marshalTo J Write w v = (w, Some err)
                 /\ JSONPb_NewEncoder J Write w v = (w, Some err))
  /\ (forall b, JSONPb.Marshal J v = (b, None) ->
                JSONPb.marshalTo J Write w v = Write w b
                /\ JSONPb_NewEncoder J Write w v
                   = match Write w b with
                     | (w', Some err) => (w', Some err)
                     | (w', None) => Write w' JSONPb_Delimiter
                     end)
  /\ (forall (buf b : string), JSONPb.Marshal J v = (b, None) ->
                JSONPb.marshalTo J bytes_Buffer buf v = (buf ++ b, None)
                /\ JSONPb_NewEncoder J bytes_Buffer buf v
                   = (buf ++ b ++ JSONPb_Delimiter, None)).
Proof.
  unfold JSONPb_NewEncoder, JSONPb.Marshal, JSONPb.marshalTo, bytes_Buffer.
  destruct (as_proto_Message v) as [p|];
    [destruct (MarshalOptions_Marshal J p) as [b0 [err0|]]
    |destruct (json_Marshal J v) as [b0 [err0|]]];
    cbn [String.append];
    (split; [|split]); intros;
    match goal with H : (_, _) = (_, _) |- _ => inversion H; subst end;
    rewrite ?app_assoc_string; split; try reflexivity;
    match goal with |- context [Write ?w ?b] => now destruct (Write w b) end.
Qed.

Lemma JSONPb_writers_witness :
  (JSONPb.marshalTo plain_codecs bytes_Buffer "[" (GoInt64 7) = ("[" ++ "7", None)
   /\ JSONPb_NewEncoder plain_codecs bytes_Buffer "[" (GoInt64 7)
      = ("[" ++ "7" ++ JSONPb_Delimiter, None))
  /\ (JSONPb.marshalTo plain_codecs rejecting_writer 0%nat (GoInt64 7)
      = rejecting_writer 0%nat "7"
      /\ JSONPb_NewEncoder plain_codecs rejecting_writer 0%nat (GoInt64 7)
         = match rejecting_writer 0%nat "7" with
           | (w', Some err) => (w', Some err)
           | (w', None) => rejecting_writer w' JSONPb_Delimiter
           end).
Proof.
  split.
  - apply (proj2 (proj2 (JSONPb_writers plain_codecs string bytes_Buffer "" (GoInt64 7)))
             "[" "7").
    reflexivity.
  - apply (proj1 (proj2 (JSONPb_writers plain_codecs nat rejecting_writer 0%nat
                           (GoInt64 7))) "7").
    reflexivity.
Defined.

(** A writer that fails: [Marshal] succeeds, and [marshalTo] and the
    encoder return the error of the writer. *)
Example JSONPb_failing_writer :
  JSONPb.Marshal plain_codecs (GoInt64 7) = ("7", None)
  /\ JSONPb.marshalTo plain_codecs rejecting_writer 0%nat (GoInt64 7)
     = (1%nat, Some (errors.External "write: closed"))
  /\ JSONPb_NewEncoder plain_codecs rejecting_writer 0%nat (GoInt64 7)
     = (1%nat, Some (errors.External "write: closed")).
Proof. repeat split. Qed.

(** ** Decimal fields: value and uniqueness *)

Lemma digits_value_shift (s : string) : forall v : Z,
  digits_value v s = v * 10 ^ Z.of_nat (String.length s) + digits_value 0 s.
Proof.
  induction s as [|c s IH]; intros v.
  - cbn [digits_value String.length]. change (10 ^ Z.of_nat 0) with 1. lia.
  - cbn [digits_value String.length].
    rewrite (IH (v * 10 + _)), (IH (0 * 10 + _)).
    replace (Z.of_nat (S (String.length s))) with (Z.succ (Z.of_nat (String.length s)))
      by lia.
    rewrite Z.pow_succ_r by lia. ring.
Qed.

Lemma digits_value_app (s t : string) : forall v : Z,
  digits_value v (s ++ t) = digits_value (digits_value v s) t.
Proof.
  induction s as [|c s IH]; intros v; [reflexivity|].
  cbn [String.append digits_value]. apply IH.
Qed.

Lemma digit_byte_value (c : byte) :
  strs.isASCIIDigit c = true -> 0 <= byte_val c - byte_val "0" <= 9.
Proof.
  unfold strs.isASCIIDigit. intros H. apply andb_prop in H as [H1 H2].
  apply Z.leb_le in H1, H2.
  change (byte_val "0") with 48 in *. change (byte_val "9") with 57 in *. lia.
Qed.

Lemma byte_val_inj (c d : byte) : byte_val c = byte_val d -> c = d.
Proof.
  unfold byte_val. intros H. apply N2Z.inj in H.
  rewrite <- (ascii_N_embedding c), <- (ascii_N_embedding d). now rewrite H.
Qed.

Lemma digits_value_bound (s : string) :
  all_digits s = true -> 0 <= digits_value 0 s < 10 ^ Z.of_nat (String.length s).
Proof.
  induction s as [|c s IH]; intros H.
  - cbn. lia.
  - cbn [all_digits] in H. apply andb_prop in H as [Hc Hs].
    cbn [digits_value String.length]. rewrite digits_value_shift.
    pose proof (digit_byte_value c Hc). specialize (IH Hs).
    replace (Z.of_nat (S (String.length s))) with (Z.succ (Z.of_nat (String.length s)))
      by lia.
    rewrite Z.pow_succ_r by lia.
    assert (0 < 10 ^ Z.of_nat (String.length s)) by (apply Z.pow_pos_nonneg; lia).
    nia.
Qed.

(** Two fields of digits of the same width that write the same number
    are the same text. *)
Lemma digits_value_inj (s : string) : forall t : string,
  all_digits s = true -> all_digits t = true ->
  String.length s = String.length t ->
  digits_value 0 s = digits_value 0 t -> s = t.
Proof.
  induction s as [|c s IH]; intros [|d t] Hs Ht Hlen Hval; try discriminate;
    [reflexivity|].
  cbn [all_digits] in Hs, Ht.
  apply andb_prop in Hs as [Hc Hs]. apply andb_prop in Ht as [Hd Ht].
  cbn [String.length] in Hlen. injection Hlen as Hlen.
  cbn [digits_value] in Hval.
  rewrite (digits_value_shift s), (digits_value_shift t), <- Hlen in Hval.
  pose proof (digit_byte_value c Hc). pose proof (digit_byte_value d Hd).
  pose proof (digits_value_bound s Hs) as Bs.
  pose proof (digits_value_bound t Ht) as Bt. rewrite <- Hlen in Bt.
  assert (0 < 10 ^ Z.of_nat (String.length s)) as Hpos
    by (apply Z.pow_pos_nonneg; lia).
  set (P := 10 ^ Z.of_nat (String.length s)) in *.
  assert (Hq : forall q r, 0 <= r < P -> q = (q * P + r) / P).
  { intros q r Hr. apply (Z.div_unique (q * P + r) P q r); [left; exact Hr | ring]. }
  assert (byte_val c - byte_val "0" = byte_val d - byte_val "0") as Hcd.
  { pose proof (Hq (0 * 10 + (byte_val c - byte_val "0")) _ Bs) as H1.
    pose proof (Hq (0 * 10 + (byte_val d - byte_val "0")) _ Bt) as H2.
    rewrite Hval in H1. lia. }
  assert (digits_value 0 s = digits_value 0 t) as Hst
    by (rewrite Hcd in Hval; lia).
  f_equal.
  - apply byte_val_inj. lia.
  - now apply IH.
Qed.

Lemma zeros_value (n : nat) : digits_value 0 (fmt.zeros n) = 0.
Proof. induction n; [reflexivity | exact IHn]. Qed.

(** A zero-padded field writes its number. *)
Lemma padZeros_value (w : nat) (u : Z) :
  0 <= u < 2 ^ 64 -> digits_value 0 (fmt.padZeros w (fmt.FormatUint u)) = u.
Proof.
  intros Hu. unfold fmt.padZeros.
  rewrite digits_value_app, zeros_value. now apply FormatUint_value.
Qed.

Lemma pow10_lt_2_64 (w : nat) : (w <= 19)%nat -> 10 ^ Z.of_nat w < 2 ^ 64.
Proof.
  intros H.
  assert (10 ^ Z.of_nat w <= 10 ^ 19) by (apply Z.pow_le_mono_r; lia).
  change (10 ^ 19) with 10000000000000000000 in *.
  change (2 ^ 64) with 18446744073709551616. lia.
Qed.

(** The field of width [w] that writes [u] is the padded [u]. *)
Lemma field_unique (w : nat) (u : Z) (s : string) :
  (w <= 18)%nat -> 0 <= u < 10 ^ Z.of_nat (S w) ->
  String.length s = S w -> all_digits s = true -> digits_value 0 s = u ->
  s = fmt.padZeros (S w) (fmt.FormatUint u).
Proof.
  intros Hw Hu Hlen Hdig Hval.
  destruct (padded_field w u Hu) as [Hl Hd].
  apply digits_value_inj; try assumption; [congruence|].
  rewrite padZeros_value; [assumption|].
  pose proof (pow10_lt_2_64 (S w)). lia.
Qed.

(** A field splits into its high and low digits. *)
Lemma padZeros_split (a b : nat) (u : Z) :
  (a + b <= 17)%nat -> 0 <= u < 10 ^ Z.of_nat (S a + S b) ->
  fmt.padZeros (S a + S b) (fmt.FormatUint u)
  = fmt.padZeros (S a) (fmt.FormatUint (u / 10 ^ Z.of_nat (S b)))
    ++ fmt.padZeros (S b) (fmt.FormatUint (u mod 10 ^ Z.of_nat (S b))).
Proof.
  intros Hab Hu.
  assert (0 < 10 ^ Z.of_nat (S b)) as Hpos by (apply Z.pow_pos_nonneg; lia).
  assert (10 ^ Z.of_nat (S a + S b) = 10 ^ Z.of_nat (S a) * 10 ^ Z.of_nat (S b)) as Hpow
    by (rewrite Nat2Z.inj_add, Z.pow_add_r; lia).
  assert (0 <= u / 10 ^ Z.of_nat (S b) < 10 ^ Z.of_nat (S a)) as Hhi.
  { split; [apply Z.div_pos; lia|]. apply Z.div_lt_upper_bound; [lia|]. lia. }
  assert (0 <= u mod 10 ^ Z.of_nat (S b) < 10 ^ Z.of_nat (S b)) as Hlo
    by (apply Z.mod_pos_bound; lia).
  destruct (padded_field a _ Hhi) as [Hla Hda].
  destruct (padded_field b _ Hlo) as [Hlb Hdb].
  symmetry. change (S a + S b)%nat with (S (a + S b)).
  apply field_unique.
  - lia.
  - exact Hu.
  - rewrite length_app, Hla, Hlb. reflexivity.
  - now rewrite all_digits_app, Hda, Hdb.
  - rewrite digits_value_app, (digits_value_shift (fmt.padZeros (S b) _)), Hlb.
    rewrite !padZeros_value.
    + rewrite Z.mul_comm. symmetry. apply Z.div_mod. lia.
    + pose proof (pow10_lt_2_64 (S b)). lia.
    + pose proof (pow10_lt_2_64 (S a)). lia.
Qed.

(** A field is all zeros exactly when its number is zero. *)
Lemma padZeros_zero (w : nat) (u : Z) :
  (w <= 18)%nat -> 0 <= u < 10 ^ Z.of_nat (S w) ->
  String.eqb (fmt.padZeros (S w) (fmt.FormatUint u)) (fmt.zeros (S w)) = (u =? 0).
Proof.
  intros Hw Hu. destruct (Z.eqb_spec u 0) as [-> | Hne].
  - apply String.eqb_eq.
    unfold fmt.padZeros. change (fmt.FormatUint 0) with "0".
    replace (S w - String.length "0")%nat with w by (cbn; lia).
    clear. induction w; [reflexivity|]. cbn [fmt.zeros String.append]. now rewrite IHw.
  - apply String.eqb_neq. intros H.
    apply (f_equal (digits_value 0)) in H.
    rewrite padZeros_value, zeros_value in H; [contradiction|].
    pose proof (pow10_lt_2_64 (S w)). lia.
Qed.

(** ** The fraction of Duration and Timestamp *)

(** The three [TrimSuffix] steps leave the fraction with the fewest of
    0, 3, 6 or 9 digits that write the nanoseconds exactly. *)
Lemma trimFraction_fraction_text (p : string) (nanos : Z) :
  0 <= nanos <= 999999999 ->
  trimFraction (p ++ "." ++ fmt.padZeros 9 (fmt.FormatUint nanos))
  = p ++ fraction_text nanos.
Proof.
  intros Hn.
  set (M := nanos / 1000).
  assert (0 <= M < 1000000) as HM by (subst M; Z.div_mod_to_equations; lia).
  assert (fmt.padZeros 9 (fmt.FormatUint nanos)
          = fmt.padZeros 6 (fmt.FormatUint M)
            ++ fmt.padZeros 3 (fmt.FormatUint (nanos mod 1000))) as E9.
  { apply (padZeros_split 5 2); [lia|].
    change (10 ^ Z.of_nat (6 + 3)) with 1000000000. lia. }
  assert (fmt.padZeros 6 (fmt.FormatUint M)
          = fmt.padZeros 3 (fmt.FormatUint (M / 1000))
            ++ fmt.padZeros 3 (fmt.FormatUint (M mod 1000))) as E6.
  { apply (padZeros_split 2 2); [lia|].
    change (10 ^ Z.of_nat (3 + 3)) with 1000000. lia. }
  assert (0 <= M / 1000 < 10 ^ Z.of_nat 3) as Ha
    by (change (10 ^ Z.of_nat 3) with 1000; Z.div_mod_to_equations; lia).
  assert (0 <= M mod 1000 < 10 ^ Z.of_nat 3) as Hb
    by (change (10 ^ Z.of_nat 3) with 1000; Z.div_mod_to_equations; lia).
  assert (0 <= nanos mod 1000 < 10 ^ Z.of_nat 3) as Hc
    by (change (10 ^ Z.of_nat 3) with 1000; Z.div_mod_to_equations; lia).
  pose proof (padZeros_zero 2 _ ltac:(lia) Ha) as Za.
  pose proof (padZeros_zero 2 _ ltac:(lia) Hb) as Zb.
  pose proof (padZeros_zero 2 _ ltac:(lia) Hc) as Zc.
  change (fmt.zeros 3) with "000" in Za, Zb, Zc.
  destruct (padded_field 2 _ Ha) as [La _].
  destruct (padded_field 2 _ Hb) as [Lb _].
  destruct (padded_field 2 _ Hc) as [Lc _].
  unfold fraction_text. rewrite E9, E6 at 1.
  set (a := fmt.padZeros 3 (fmt.FormatUint (M / 1000))) in *.
  set (b := fmt.padZeros 3 (fmt.FormatUint (M mod 1000))) in *.
  set (c := fmt.padZeros 3 (fmt.FormatUint (nanos mod 1000))) in *.
  destruct (length_three a La) as (a0 & a1 & a2 & Ea).
  destruct (length_three b Lb) as (b0 & b1 & b2 & Eb).
  destruct (length_three c Lc) as (c0 & c1 & c2 & Ec).
  pose proof (trimFraction_nine p a0 a1 a2 b0 b1 b2 c0 c1 c2) as Ht.
  cbv zeta in Ht. rewrite <- Ea, <- Eb, <- Ec in Ht.
  rewrite app_assoc_string. rewrite Ht, Zc, Zb, Za.
  destruct (Z.eqb_spec (nanos mod 1000) 0) as [Hc0 | Hc0].
  - destruct (Z.eqb_spec (M mod 1000) 0) as [Hb0 | Hb0].
    + destruct (Z.eqb_spec (M / 1000) 0) as [Ha0 | Ha0].
      * replace (nanos =? 0) with true
          by (symmetry; apply Z.eqb_eq; subst M; Z.div_mod_to_equations; lia).
        now rewrite app_empty_r.
      * replace (nanos =? 0) with false
          by (symmetry; apply Z.eqb_neq; subst M; Z.div_mod_to_equations; lia).
        replace (nanos mod 1000000 =? 0) with true
          by (symmetry; apply Z.eqb_eq; subst M; Z.div_mod_to_equations; lia).
        replace (nanos / 1000000) with (M / 1000)
          by (subst M; Z.div_mod_to_equations; lia).
        reflexivity.
    + replace (nanos =? 0) with false
        by (symmetry; apply Z.eqb_neq; subst M; Z.div_mod_to_equations; lia).
      replace (nanos mod 1000000 =? 0) with false
        by (symmetry; apply Z.eqb_neq; subst M; Z.div_mod_to_equations; lia).
      replace (nanos mod 1000 =? 0) with true by (symmetry; now apply Z.eqb_eq).
      fold M. now rewrite E6.
  - replace (nanos =? 0) with false
      by (symmetry; apply Z.eqb_neq; Z.div_mod_to_equations; lia).
    replace (nanos mod 1000000 =? 0) with false
      by (symmetry; apply Z.eqb_neq; Z.div_mod_to_equations; lia).
    replace (nanos mod 1000 =? 0) with false by (symmetry; now apply Z.eqb_neq).
    fold M. rewrite E9, E6. now rewrite !app_assoc_string.
Qed.

Lemma app_inv_head_length (p1 : string) : forall p2 r1 r2 : string,
  String.length p1 = String.length p2 -> p1 ++ r1 = p2 ++ r2 ->
  p1 = p2 /\ r1 = r2.
Proof.
  induction p1 as [|c p1 IH]; intros [|d p2] r1 r2 Hlen H; try discriminate.
  - now split.
  - cbn [String.append] in H. injection H as -> H.
    cbn [String.length] in Hlen. injection Hlen as Hlen.
    destruct (IH p2 r1 r2 Hlen H) as [-> ->]. now split.
Qed.

Lemma app_inv_tail_string (s t u : string) : s ++ u = t ++ u -> s = t.
Proof.
  intros H.
  assert (String.length s = String.length t) as Hlen.
  { apply (f_equal String.length) in H. rewrite !length_app in H. lia. }
  now destruct (app_inv_head_length s t u u Hlen H).
Qed.

(** A run of digits before a byte that is no digit is read in one way. *)
Lemma digits_prefix_unique (d1 : string) : forall (d2 r1 r2 : string),
  all_digits d1 = true -> all_digits d2 = true ->
  starts_with_digit r1 = false -> starts_with_digit r2 = false ->
  d1 ++ r1 = d2 ++ r2 -> d1 = d2 /\ r1 = r2.
Proof.
  induction d1 as [|c d1 IH]; intros [|d d2] r1 r2 H1 H2 Hr1 Hr2 H.
  - now split.
  - cbn [String.append] in H. subst r1. cbn [all_digits] in H2.
    apply andb_prop in H2 as [Hd _]. cbn [starts_with_digit] in Hr1. congruence.
  - cbn [String.append] in H. subst r2. cbn [all_digits] in H1.
    apply andb_prop in H1 as [Hc _]. cbn [starts_with_digit] in Hr2. congruence.
  - cbn [String.append] in H. injection H as -> H.
    cbn [all_digits] in H1, H2.
    apply andb_prop in H1 as [_ H1]. apply andb_prop in H2 as [_ H2].
    destruct (IH d2 r1 r2 H1 H2 Hr1 Hr2 H) as [-> ->]. now split.
Qed.

(** The fraction by cases: no digit, or a dot and a field of 3, 6 or 9
    digits of which the last three are not all zero. *)
Lemma fraction_text_cases (nanos : Z) :
  0 <= nanos <= 999999999 ->
  (nanos = 0 /\ fraction_text nanos = "")
  \/ (exists x, 0 < x < 1000 /\ nanos = x * 1000000
                /\ fraction_text nanos = "." ++ fmt.padZeros 3 (fmt.FormatUint x))
  \/ (exists x, 0 < x < 1000000 /\ nanos = x * 1000
                /\ fraction_text nanos = "." ++ fmt.padZeros 6 (fmt.FormatUint x))
  \/ (0 < nanos
      /\ fraction_text nanos = "." ++ fmt.padZeros 9 (fmt.FormatUint nanos)).
Proof.
  intros Hn. unfold fraction_text.
  destruct (Z.eqb_spec nanos 0) as [H0 | H0]; [now left|].
  destruct (Z.eqb_spec (nanos mod 1000000) 0) as [H6 | H6].
  { right; left. exists (nanos / 1000000).
    repeat split; try (Z.div_mod_to_equations; lia). }
  destruct (Z.eqb_spec (nanos mod 1000) 0) as [H3 | H3].
  { right; right; left. exists (nanos / 1000).
    repeat split; try (Z.div_mod_to_equations; lia). }
  right; right; right. split; [lia | reflexivity].
Qed.

Lemma fraction_field_length (w : nat) (x : Z) :
  0 <= x < 10 ^ Z.of_nat (S w) ->
  String.length ("." ++ fmt.padZeros (S w) (fmt.FormatUint x)) = S (S w).
Proof.
  intros Hx. cbn [String.append String.length].
  now destruct (padded_field w x Hx) as [-> _].
Qed.

Lemma fraction_field_inj (w : nat) (x y : Z) :
  (w <= 18)%nat ->
  0 <= x < 10 ^ Z.of_nat (S w) -> 0 <= y < 10 ^ Z.of_nat (S w) ->
  "." ++ fmt.padZeros (S w) (fmt.FormatUint x)
  = "." ++ fmt.padZeros (S w) (fmt.FormatUint y) -> x = y.
Proof.
  intros Hw Hx Hy H. cbn [String.append] in H. injection H as H.
  apply (f_equal (digits_value 0)) in H.
  pose proof (pow10_lt_2_64 (S w)).
  rewrite !padZeros_value in H by lia. exact H.
Qed.

(** The fraction tells the nanoseconds. *)
Lemma fraction_text_inj (n1 n2 : Z) :
  0 <= n1 <= 999999999 -> 0 <= n2 <= 999999999 ->
  fraction_text n1 = fraction_text n2 -> n1 = n2.
Proof.
  intros H1 H2 H.
  pose proof (f_equal String.length H) as Hlen.
  destruct (fraction_text_cases n1 H1)
    as [[E1 T1] | [(x1 & B1 & E1 & T1) | [(x1 & B1 & E1 & T1) | [B1 T1]]]];
  destruct (fraction_text_cases n2 H2)
    as [[E2 T2] | [(x2 & B2 & E2 & T2) | [(x2 & B2 & E2 & T2) | [B2 T2]]]];
  rewrite T1, T2 in H, Hlen;
  rewrite ?(fraction_field_length 2), ?(fraction_field_length 5),
          ?(fraction_field_length 8) in Hlen
    by (first [ change (10 ^ Z.of_nat 3) with 1000
              | change (10 ^ Z.of_nat 6) with 1000000
              | change (10 ^ Z.of_nat 9) with 1000000000 ]; lia);
  try discriminate Hlen; try lia.
  - apply (fraction_field_inj 2) in H;
      [lia | lia | change (10 ^ Z.of_nat 3) with 1000; lia
       | change (10 ^ Z.of_nat 3) with 1000; lia].
  - apply (fraction_field_inj 5) in H;
      [lia | lia | change (10 ^ Z.of_nat 6) with 1000000; lia
       | change (10 ^ Z.of_nat 6) with 1000000; lia].
  - apply (fraction_field_inj 8) in H;
      [lia | lia | change (10 ^ Z.of_nat 9) with 1000000000; lia
       | change (10 ^ Z.of_nat 9) with 1000000000; lia].
Qed.

Lemma fraction_text_then (nanos : Z) (stop : byte) :
  strs.isASCIIDigit stop = false ->
  starts_with_digit (fraction_text nanos ++ String stop "") = false.
Proof.
  intros Hstop. unfold fraction_text.
  destruct (nanos =? 0); [exact Hstop|].
  destruct (nanos mod 1000000 =? 0); [reflexivity|].
  destruct (nanos mod 1000 =? 0); reflexivity.
Qed.

(** ** The text of a Duration *)

Lemma marshalDuration_string (e : encoder) (secs nanos : Z) :
  - 315576000000 <= secs <= 315576000000 ->
  - 999999999 <= nanos <= 999999999 ->
  (0 <= secs /\ 0 <= nanos) \/ (secs <= 0 /\ nanos <= 0) ->
  marshalDuration e (Duration_message secs nanos)
  = (write e (String_ (duration_string secs nanos)), Return None).
Proof.
  intros Hs Hn Hsg. rewrite marshalDuration_valid by assumption.
  unfold duration_string. do 3 f_equal.
  unfold fmt.Sprintf_09d.
  replace (Z.abs nanos <? 0) with false by (symmetry; apply Z.ltb_ge; lia).
  rewrite <- (app_assoc_string _ (fmt.Sprintf_d (Z.abs secs))).
  rewrite trimFraction_fraction_text by lia.
  now rewrite !app_assoc_string.
Qed.

(** X12: the text of a Duration is its sign, the whole seconds, the
    fraction with the fewest of 0, 3, 6 or 9 digits that write the
    nanoseconds exactly (none for 0 nanoseconds, 3 for whole
    milliseconds, 6 for whole microseconds) and "s". *)
Theorem marshalDuration_shortest (e : encoder) (secs nanos : Z) :
  - 315576000000 <= secs <= 315576000000 ->
  - 999999999 <= nanos <= 999999999 ->
  (0 <= secs /\ 0 <= nanos) \/ (secs <= 0 /\ nanos <= 0) ->
  marshalDuration e (Duration_message secs nanos)
  = (write e (String_ (duration_string secs nanos)), Return None).
Proof. apply marshalDuration_string. Qed.

Lemma marshalDuration_shortest_witness :
  marshalDuration empty_encoder (Duration_message (-3) (-20000000))
  = (write empty_encoder (String_ (duration_string (-3) (-20000000))), Return None).
Proof. apply marshalDuration_shortest; lia. Defined.

Example duration_string_examples :
  map (fun d => duration_string (fst d) (snd d))
      [(0, 0); (1, 500000000); (-1, -500000000); (0, -1); (7, 1000); (7, 1000000);
       (315576000000, 999999999); (0, 20000)]
  = ["0s"; "1.500s"; "-1.500s"; "-0.000000001s"; "7.000001s"; "7.001s";
     "315576000000.999999999s"; "0.000020s"].
Proof. reflexivity. Qed.

Lemma duration_string_inj (s1 n1 s2 n2 : Z) :
  - 315576000000 <= s1 <= 315576000000 -> - 999999999 <= n1 <= 999999999 ->
  (0 <= s1 /\ 0 <= n1) \/ (s1 <= 0 /\ n1 <= 0) ->
  - 315576000000 <= s2 <= 315576000000 -> - 999999999 <= n2 <= 999999999 ->
  (0 <= s2 /\ 0 <= n2) \/ (s2 <= 0 /\ n2 <= 0) ->
  duration_string s1 n1 = duration_string s2 n2 -> s1 = s2 /\ n1 = n2.
Proof.
  intros Hs1 Hn1 Hg1 Hs2 Hn2 Hg2. unfold duration_string.
  destruct (Sprintf_d_digits (Z.abs s1) (Z.abs_nonneg _)) as [D1 N1].
  destruct (Sprintf_d_digits (Z.abs s2) (Z.abs_nonneg _)) as [D2 N2].
  assert (Hmag : fmt.Sprintf_d (Z.abs s1) ++ fraction_text (Z.abs n1) ++ "s"
                 = fmt.Sprintf_d (Z.abs s2) ++ fraction_text (Z.abs n2) ++ "s" ->
                 Z.abs s1 = Z.abs s2 /\ Z.abs n1 = Z.abs n2).
  { intros H.
    apply digits_prefix_unique in H; try assumption;
      try (now apply fraction_text_then).
    destruct H as [HD HF]. apply app_inv_tail_string in HF. split.
    - apply (f_equal (digits_value 0)) in HD. unfold fmt.Sprintf_d in HD.
      replace (Z.abs s1 <? 0) with false in HD by (symmetry; apply Z.ltb_ge; lia).
      replace (Z.abs s2 <? 0) with false in HD by (symmetry; apply Z.ltb_ge; lia).
      change (2 ^ 64) with 18446744073709551616 in *.
      rewrite !FormatUint_value in HD
        by (change (2 ^ 64) with 18446744073709551616; lia).
      exact HD.
    - apply fraction_text_inj; [lia | lia | exact HF]. }
  assert (Hsign : forall d r, all_digits d = true -> d <> "" -> "-" ++ r <> d ++ "s" ++ r
                              /\ forall t u, "-" ++ t <> d ++ u).
  { intros d r Hd Hne. destruct d as [|c d]; [congruence|].
    cbn [all_digits] in Hd. apply andb_prop in Hd as [Hc _].
    split; [|intros t u]; intros H; cbn [String.append] in H;
      injection H as <-; discriminate. }
  destruct ((s1 <? 0) || (n1 <? 0)) eqn:G1; destruct ((s2 <? 0) || (n2 <? 0)) eqn:G2;
    intros H.
  - cbn [String.append] in H. injection H as H.
    destruct (Hmag H) as [HS HN].
    apply orb_prop in G1. apply orb_prop in G2.
    rewrite !Z.ltb_lt in G1, G2. lia.
  - exfalso. exact (proj2 (Hsign _ "" D2 N2) _ _ H).
  - exfalso. symmetry in H. exact (proj2 (Hsign _ "" D1 N1) _ _ H).
  - cbn [String.append] in H. destruct (Hmag H) as [HS HN].
    apply orb_false_elim in G1 as [A1 B1]. apply orb_false_elim in G2 as [A2 B2].
    rewrite Z.ltb_ge in A1, B1, A2, B2. lia.
Qed.

(** X13: two Durations that [marshalDuration] accepts and that differ are
    never written as the same text: the text tells seconds and nanos. *)
Theorem marshalDuration_injective (e : encoder) (s1 n1 s2 n2 : Z) :
  - 315576000000 <= s1 <= 315576000000 -> - 999999999 <= n1 <= 999999999 ->
  (0 <= s1 /\ 0 <= n1) \/ (s1 <= 0 /\ n1 <= 0) ->
  - 315576000000 <= s2 <= 315576000000 -> - 999999999 <= n2 <= 999999999 ->
  (0 <= s2 /\ 0 <= n2) \/ (s2 <= 0 /\ n2 <= 0) ->
  marshalDuration e (Duration_message s1 n1)
  = marshalDuration e (Duration_message s2 n2) ->
  s1 = s2 /\ n1 = n2.
Proof.
  intros Hs1 Hn1 Hg1 Hs2 Hn2 Hg2.
  rewrite !marshalDuration_string by assumption.
  intros H. apply (f_equal (fun r => out (fst r))) in H.
  cbn [fst out write] in H. apply app_inv_head in H. injection H as H.
  now apply duration_string_inj.
Qed.

Lemma marshalDuration_injective_witness :
  (1 + 1 = 2 /\ 500000000 = 250000000 * 2)
  /\ marshalDuration empty_encoder (Duration_message (1 + 1) 500000000)
     = marshalDuration empty_encoder (Duration_message 2 (250000000 * 2)).
Proof.
  split; [|reflexivity].
  apply (marshalDuration_injective empty_encoder (1 + 1) 500000000 2 (250000000 * 2));
    try lia; reflexivity.
Defined.

(** ** The text of a Timestamp *)

Lemma appendInt_inj (w : nat) (x y : Z) :
  (w <= 18)%nat ->
  0 <= x < 10 ^ Z.of_nat (S w) -> 0 <= y < 10 ^ Z.of_nat (S w) ->
  time.appendInt x (S w) = time.appendInt y (S w) -> x = y.
Proof.
  intros Hw Hx Hy. unfold time.appendInt.
  replace (x <? 0) with false by (symmetry; apply Z.ltb_ge; lia).
  replace (y <? 0) with false by (symmetry; apply Z.ltb_ge; lia).
  intros H. apply (f_equal (digits_value 0)) in H.
  pose proof (pow10_lt_2_64 (S w)).
  rewrite !padZeros_value in H by lia. exact H.
Qed.

Lemma Format_date_time_text (secs nanos : Z) :
  time.Format_2006_01_02T15_04_05_000000000 (time.mkTime secs nanos)
  = date_time_text secs ++ "." ++ fmt.padZeros 9 (fmt.FormatUint nanos).
Proof.
  unfold time.Format_2006_01_02T15_04_05_000000000, date_time_text.
  cbn [time.sec time.nsec].
  destruct (time.Date (secs / 86400)) as [[y m] d].
  now rewrite !app_assoc_string.
Qed.

Lemma marshalTimestamp_string (e : encoder) (secs nanos : Z) :
  -62135596800 <= secs <= 253402300799 -> 0 <= nanos <= 999999999 ->
  marshalTimestamp e (Timestamp_message secs nanos)
  = (write e (String_ (timestamp_string secs nanos)), Return None).
Proof.
  intros Hs Hn. rewrite marshalTimestamp_valid by assumption.
  unfold timestamp_string. do 3 f_equal.
  rewrite Format_date_time_text, trimFraction_fraction_text by lia.
  now rewrite !app_assoc_string.
Qed.

(** X14: the text of a Timestamp is the date and time
    [YYYY-MM-DDTHH:MM:SS], the fraction with the fewest of 0, 3, 6 or 9
    digits that write the nanoseconds exactly, and "Z". *)
Theorem marshalTimestamp_shortest (e : encoder) (secs nanos : Z) :
  -62135596800 <= secs <= 253402300799 -> 0 <= nanos <= 999999999 ->
  marshalTimestamp e (Timestamp_message secs nanos)
  = (write e (String_ (timestamp_string secs nanos)), Return None).
Proof. apply marshalTimestamp_string. Qed.

Lemma marshalTimestamp_shortest_witness :
  marshalTimestamp empty_encoder (Timestamp_message 1693267200 250000000)
  = (write empty_encoder (String_ (timestamp_string 1693267200 250000000)), Return None).
Proof. apply marshalTimestamp_shortest; lia. Defined.

Example timestamp_string_examples :
  map (fun t => timestamp_string (fst t) (snd t))
      [(1693267200, 0); (1693267200, 250000000); (0, 1); (-1, 999999000);
       (253402300799, 999999999); (-62135596800, 0)]
  = ["2023-08-29T00:00:00Z"; "2023-08-29T00:00:00.250Z";
     "1970-01-01T00:00:00.000000001Z"; "1969-12-31T23:59:59.999999Z";
     "9999-12-31T23:59:59.999999999Z"; "0001-01-01T00:00:00Z"].
Proof. vm_compute. reflexivity. Qed.

(** The fields of the date and time of a second in the range of a
    Timestamp. *)
Lemma date_time_fields (secs : Z) :
  -62135596800 <= secs <= 253402300799 ->
  exists y m d : Z,
    time.Date (secs / 86400) = (y, m, d)
    /\ 1 <= y <= 9999 /\ 1 <= m <= 12 /\ 1 <= d <= 31
    /\ date_time_text secs
       = time.appendInt y 4 ++ "-" ++ time.appendInt m 2 ++ "-"
         ++ time.appendInt d 2 ++ "T"
         ++ time.appendInt (secs mod 86400 / 3600) 2 ++ ":"
         ++ time.appendInt ((secs mod 86400 / 60) mod 60) 2 ++ ":"
         ++ time.appendInt (secs mod 86400 mod 60) 2.
Proof.
  intros Hs.
  assert (-719162 <= secs / 86400 <= 2932896) as Hdays
    by (Z.div_mod_to_equations; lia).
  pose proof (Date_bounds (secs / 86400) Hdays) as Hb.
  unfold date_time_text.
  destruct (time.Date (secs / 86400)) as [[y m] d].
  exists y, m, d. destruct Hb as (Hy & Hm & Hd).
  repeat split; first [lia | reflexivity].
Qed.

Lemma date_time_text_length (secs : Z) :
  -62135596800 <= secs <= 253402300799 ->
  String.length (date_time_text secs) = 19%nat.
Proof.
  intros Hs. destruct (date_time_fields secs Hs) as (y & m & d & _ & Hy & Hm & Hd & ->).
  assert (0 <= secs mod 86400 < 86400) as Hr by (apply Z.mod_pos_bound; lia).
  rewrite !length_app.
  rewrite (proj1 (appendInt_field 3 y ltac:(change (10 ^ Z.of_nat 4) with 10000; lia))).
  rewrite (proj1 (appendInt_field 1 m ltac:(change (10 ^ Z.of_nat 2) with 100; lia))).
  rewrite (proj1 (appendInt_field 1 d ltac:(change (10 ^ Z.of_nat 2) with 100; lia))).
  rewrite (proj1 (appendInt_field 1 (secs mod 86400 / 3600)
                    ltac:(change (10 ^ Z.of_nat 2) with 100;
                          Z.div_mod_to_equations; lia))).
  rewrite (proj1 (appendInt_field 1 ((secs mod 86400 / 60) mod 60)
                    ltac:(change (10 ^ Z.of_nat 2) with 100;
                          Z.div_mod_to_equations; lia))).
  rewrite (proj1 (appendInt_field 1 (secs mod 86400 mod 60)
                    ltac:(change (10 ^ Z.of_nat 2) with 100;
                          Z.div_mod_to_equations; lia))).
  reflexivity.
Qed.

Lemma date_time_text_inj (s1 s2 : Z) :
  -62135596800 <= s1 <= 253402300799 -> -62135596800 <= s2 <= 253402300799 ->
  date_time_text s1 = date_time_text s2 -> s1 = s2.
Proof.
  intros H1 H2 H.
  destruct (date_time_fields s1 H1) as (y1 & m1 & d1 & D1 & Hy1 & Hm1 & Hd1 & T1).
  destruct (date_time_fields s2 H2) as (y2 & m2 & d2 & D2 & Hy2 & Hm2 & Hd2 & T2).
  rewrite T1, T2 in H. clear T1 T2.
  assert (0 <= s1 mod 86400 < 86400) as Hr1 by (apply Z.mod_pos_bound; lia).
  assert (0 <= s2 mod 86400 < 86400) as Hr2 by (apply Z.mod_pos_bound; lia).
  set (r1 := s1 mod 86400) in *. set (r2 := s2 mod 86400) in *.
  assert (Hlen4 : forall x, 1 <= x <= 9999 -> String.length (time.appendInt x 4) = 4%nat).
  { intros x Hx. apply (appendInt_field 3). change (10 ^ Z.of_nat 4) with 10000. lia. }
  assert (Hlen2 : forall x, 0 <= x <= 99 -> String.length (time.appendInt x 2) = 2%nat).
  { intros x Hx. apply (appendInt_field 1). change (10 ^ Z.of_nat 2) with 100. lia. }
  assert (Hinj4 : forall x y, 1 <= x <= 9999 -> 1 <= y <= 9999 ->
                              time.appendInt x 4 = time.appendInt y 4 -> x = y).
  { intros x y Hx Hy. apply (appendInt_inj 3); [lia| |];
      change (10 ^ Z.of_nat 4) with 10000; lia. }
  assert (Hinj2 : forall x y, 0 <= x <= 99 -> 0 <= y <= 99 ->
                              time.appendInt x 2 = time.appendInt y 2 -> x = y).
  { intros x y Hx Hy. apply (appendInt_inj 1); [lia| |];
      change (10 ^ Z.of_nat 2) with 100; lia. }
  assert (0 <= r1 / 3600 <= 99 /\ 0 <= (r1 / 60) mod 60 <= 99 /\ 0 <= r1 mod 60 <= 99)
    as (Ba1 & Bb1 & Bc1) by (repeat split; Z.div_mod_to_equations; lia).
  assert (0 <= r2 / 3600 <= 99 /\ 0 <= (r2 / 60) mod 60 <= 99 /\ 0 <= r2 mod 60 <= 99)
    as (Ba2 & Bb2 & Bc2) by (repeat split; Z.div_mod_to_equations; lia).
  apply app_inv_head_length in H; [|rewrite !Hlen4 by lia; reflexivity].
  destruct H as [Ey H]. apply Hinj4 in Ey; [|lia|lia].
  cbn [String.append] in H. injection H as H.
  apply app_inv_head_length in H; [|rewrite !Hlen2 by lia; reflexivity].
  destruct H as [Em H]. apply Hinj2 in Em; [|lia|lia].
  cbn [String.append] in H. injection H as H.
  apply app_inv_head_length in H; [|rewrite !Hlen2 by lia; reflexivity].
  destruct H as [Ed H]. apply Hinj2 in Ed; [|lia|lia].
  cbn [String.append] in H. injection H as H.
  apply app_inv_head_length in H; [|rewrite !Hlen2 by lia; reflexivity].
  destruct H as [Eh H]. apply Hinj2 in Eh; [|lia|lia].
  cbn [String.append] in H. injection H as H.
  apply app_inv_head_length in H; [|rewrite !Hlen2 by lia; reflexivity].
  destruct H as [Emi H]. apply Hinj2 in Emi; [|lia|lia].
  cbn [String.append] in H. injection H as H.
  apply Hinj2 in H; [|lia|lia].
  assert (s1 / 86400 = s2 / 86400) as Edays.
  { pose proof (Date_inverse (s1 / 86400)) as I1. rewrite D1 in I1.
    pose proof (Date_inverse (s2 / 86400)) as I2. rewrite D2 in I2.
    rewrite <- I1, <- I2. now rewrite Ey, Em, Ed. }
  assert (r1 = r2) as Er by (Z.div_mod_to_equations; lia).
  subst r1 r2.
  rewrite (Z.div_mod s1 86400), (Z.div_mod s2 86400) by lia.
  now rewrite Edays, Er.
Qed.

(** X15: two Timestamps that [marshalTimestamp] accepts and that differ
    are never written as the same text: the text tells seconds and
    nanos. *)
Theorem marshalTimestamp_injective (e : encoder) (s1 n1 s2 n2 : Z) :
  -62135596800 <= s1 <= 253402300799 -> 0 <= n1 <= 999999999 ->
  -62135596800 <= s2 <= 253402300799 -> 0 <= n2 <= 999999999 ->
  marshalTimestamp e (Timestamp_message s1 n1)
  = marshalTimestamp e (Timestamp_message s2 n2) ->
  s1 = s2 /\ n1 = n2.
Proof.
  intros Hs1 Hn1 Hs2 Hn2.
  rewrite !marshalTimestamp_string by assumption.
  intros H. apply (f_equal (fun r => out (fst r))) in H.
  cbn [fst out write] in H. apply app_inv_head in H. injection H as H.
  unfold timestamp_string in H.
  apply app_inv_head_length in H;
    [|now rewrite !date_time_text_length by assumption].
  destruct H as [Hd Hf]. apply app_inv_tail_string in Hf. split.
  - now apply date_time_text_inj.
  - now apply fraction_text_inj.
Qed.

Lemma marshalTimestamp_injective_witness :
  (1693267200 = 19598 * 86400 /\ 1000 = 500 * 2)
  /\ marshalTimestamp empty_encoder (Timestamp_message 1693267200 1000)
     = marshalTimestamp empty_encoder (Timestamp_message (19598 * 86400) (500 * 2)).
Proof.
  split; [|reflexivity].
  apply (marshalTimestamp_injective empty_encoder 1693267200 1000
           (19598 * 86400) (500 * 2)); try lia; reflexivity.
Defined.

(** ** What the marshalers write is well bracketed *)

Lemma brackets_app (l1 l2 : list Token) : forall opened : list bracket,
  brackets opened (l1 ++ l2)
  = match brackets opened l1 with
    | Some opened1 => brackets opened1 l2
    | None => None
    end.
Proof.
  induction l1 as [|t l1 IH]; intros opened; [reflexivity|].
  destruct t; cbn [app brackets]; try apply IH;
    destruct opened as [|[] opened]; try reflexivity; apply IH.
Qed.




Lemma extends_trans (e1 e2 e3 : encoder) :
  extends e1 e2 -> extends e2 e3 -> extends e1 e3.
Proof.
  intros (l1 & -> & N1) (l2 & -> & N2). exists (l1 ++ l2)%list. cbn [out opts].
  split; [now rewrite app_assoc|].
  unfold well_bracketed in *. now rewrite brackets_app, N1.
Qed.










(** Tokens that close what is not open, or close an object with the
    token of an array, are not well bracketed, though they close as many
    as they open. *)
Example brackets_rejects :
  brackets [] [ObjectClose; ObjectOpen] = None
  /\ brackets [] [ObjectOpen; ArrayClose] = None
  /\ brackets [] [ObjectOpen; ArrayOpen; ObjectClose; ArrayClose] = None
  /\ brackets [] [ObjectOpen; Name "a"; ArrayOpen; Null; ArrayClose; ObjectClose]
     = Some [].
Proof. repeat split. Qed.



(** ** The order of the range checks *)

(** X17: the checks of [marshalDuration] and [marshalTimestamp] run in
    the order seconds, nanos, signs, and the first that fails decides the
    error: seconds out of range give the seconds error with the value,
    also when nanos are out of range too; nanos out of range give the
    nanos error with the value only when seconds are in range; the sign
    error comes only when both are in range.  Nothing is written. *)
Theorem range_errors_order (e : encoder) (secs nanos : Z) :
  (secs < - 315576000000 \/ 315576000000 < secs ->
   marshalDuration e (Duration_message secs nanos)
   = (e, Return (Some (errors.New "%s: seconds out of range %v"
                         [errors.ArgString "google.protobuf.Duration";
                          errors.ArgInt secs]))))
  /\ (- 315576000000 <= secs <= 315576000000 ->
      nanos < - 999999999 \/ 999999999 < nanos ->
      marshalDuration e (Duration_message secs nanos)
      = (e, Return (Some (errors.New "%s: nanos out of range %v"
                            [errors.ArgString "google.protobuf.Duration";
                             errors.ArgInt nanos]))))
  /\ (- 315576000000 <= secs <= 315576000000 ->
      - 999999999 <= nanos <= 999999999 ->
      (0 < secs /\ nanos < 0) \/ (secs < 0 /\ 0 < nanos) ->
      marshalDuration e (Duration_message secs nanos)
      = (e, Return (Some (errors.New "%s: signs of seconds and nanos do not match"
                            [errors.ArgString "google.protobuf.Duration"]))))
  /\ (secs < -62135596800 \/ 253402300799 < secs ->
      marshalTimestamp e (Timestamp_message secs nanos)
      = (e, Return (Some (errors.New "%s: seconds out of range %v"
                            [errors.ArgString "google.protobuf.Timestamp";
                             errors.ArgInt secs]))))
  /\ (-62135596800 <= secs <= 253402300799 ->
      nanos < 0 \/ 999999999 < nanos ->
      marshalTimestamp e (Timestamp_message secs nanos)
      = (e, Return (Some (errors.New "%s: nanos out of range %v"
                            [errors.ArgString "google.protobuf.Timestamp";
                             errors.ArgInt nanos])))).
Proof.
  repeat split; intros;
    unfold marshalDuration, marshalTimestamp; cbv zeta;
    rewrite ?Duration_Get_seconds, ?Duration_Get_nanos,
            ?Timestamp_Get_seconds, ?Timestamp_Get_nanos; cbn [Value_Int];
    unfold maxSecondsInDuration, secondsInNanos, minTimestampSeconds,
           maxTimestampSeconds;
    repeat match goal with
           | |- context [Z.ltb ?a ?b] => destruct (Z.ltb_spec a b); try lia
           end;
    reflexivity.
Qed.

Lemma range_errors_order_witness :
  marshalDuration empty_encoder (Duration_message 315576000001 1000000000)
  = (empty_encoder,
     Return (Some (errors.New "%s: seconds out of range %v"
                     [errors.ArgString "google.protobuf.Duration";
                      errors.ArgInt 315576000001])))
  /\ marshalTimestamp empty_encoder (Timestamp_message 0 (-1))
     = (empty_encoder,
        Return (Some (errors.New "%s: nanos out of range %v"
                        [errors.ArgString "google.protobuf.Timestamp";
                         errors.ArgInt (-1)]))).
Proof.
  split.
  - apply (proj1 (range_errors_order empty_encoder 315576000001 1000000000)). lia.
  - apply (proj2 (proj2 (proj2 (proj2 (range_errors_order empty_encoder 0 (-1)))))); lia.
Defined.
